(** * Snake game engine (HomePage component): model and verification

    The component keeps its game state in React state cells and one ref
    ([pendingDirection]).  Every callback of the component (the interval
    callback [tick], the [keydown] listener, the click on the restart button)
    runs to completion before the next one starts, and the listeners are
    re-registered after every render, so each callback sees the state left by
    the previous one.  The model is therefore a record of the state cells and
    one state-to-state function per callback.

    [Math.random()] is an input of the callbacks that draw a food cell: a
    rational [u] with [0 <= u < 1]. *)

From Stdlib Require Import ZArith NArith QArith Qround List Bool String Ascii Lia.
From Stdlib Require Import Permutation.
Import ListNotations.

Open Scope Z_scope.

(** ** JavaScript values used by the component *)

Module JS.

(** A string is its sequence of UTF-16 code units. *)
Definition JSString : Type := list N.

Definition js (s : string) : JSString :=
  map N_of_ascii (list_ascii_of_string s).

Fixpoint strictEq (a b : JSString) : bool :=
  match a, b with
  | [], [] => true
  | c :: a', d :: b' => N.eqb c d && strictEq a' b'
  | _, _ => false
  end.

(** A number: the exceptional values of the Number type and the ordinary
    ones, each as the rational it is equal to (the sign of zero is not
    represented). *)
Inductive Number : Type :=
| NaN
| NegInfinity
| Num (q : Q)
| Infinity.

Definition ofZ (z : Z) : Number := Num (inject_Z z).

(** [Math.max(a, b)]: NaN if either argument is NaN, else the larger. *)
Definition Math_max (a b : Number) : Number :=
  match a, b with
  | NaN, _ | _, NaN => NaN
  | Infinity, _ | _, Infinity => Infinity
  | NegInfinity, v | v, NegInfinity => v
  | Num p, Num q => if Qle_bool p q then Num q else Num p
  end.

(** *** [Number(string)]: the StringToNumber conversion of ECMA-262

    The literal is read for its mathematical value, which is then rounded
    to the nearest binary64 value. *)

(** WhiteSpace and LineTerminator code units. *)
Definition isStrWhiteSpaceChar (c : N) : bool :=
  (existsb (N.eqb c)
     [9; 10; 11; 12; 13; 32; 160; 5760; 8232; 8233; 8239; 8287; 12288; 65279]
   || ((8192 <=? c) && (c <=? 8202)))%N.

Fixpoint dropWhite (s : JSString) : JSString :=
  match s with
  | c :: r => if isStrWhiteSpaceChar c then dropWhite r else s
  | [] => []
  end.

Definition trim (s : JSString) : JSString :=
  rev (dropWhite (rev (dropWhite s))).

(** Value of a digit of the given base (letters in either case). *)
Definition digitValue (base c : N) : option N :=
  (let v :=
     if (48 <=? c) && (c <=? 57) then Some (c - 48)
     else if (97 <=? c) && (c <=? 102) then Some (c - 87)
     else if (65 <=? c) && (c <=? 70) then Some (c - 55)
     else None in
   match v with
   | Some d => if d <? base then Some d else None
   | None => None
   end)%N.

(** Longest prefix of digits: its value on top of [acc], the number of
    digits read on top of [n], and the rest of the string. *)
Fixpoint spanDigits (base : N) (s : JSString) (acc : N) (n : nat)
  : N * nat * JSString :=
  match s with
  | c :: r =>
      match digitValue base c with
      | Some d => spanDigits base r (acc * base + d)%N (S n)
      | None => (acc, n, s)
      end
  | [] => (acc, n, [])
  end.

(** ExponentPart, optional: [e] or [E], an optional sign, digits, and
    nothing after them. *)
Definition exponentPart (s : JSString) : option Z :=
  match s with
  | [] => Some 0
  | c :: r =>
      if ((c =? 101) || (c =? 69))%N then
        let '(neg, r') :=
          match r with
          | d :: t =>
              if (d =? 43)%N then (false, t)
              else if (d =? 45)%N then (true, t)
              else (false, r)
          | [] => (false, r)
          end in
        match spanDigits 10 r' 0 0 with
        | (e, S _, []) => Some (if neg then - Z.of_N e else Z.of_N e)
        | _ => None
        end
      else None
  end.

(** [m * 10 ^ k] as a rational in lowest terms. *)
Definition scale10 (m : N) (k : Z) : Q :=
  if 0 <=? k then inject_Z (Z.of_N m * 10 ^ k)
  else Qred (Z.of_N m # Z.to_pos (10 ^ (- k))).

(** [m * 2 ^ k] as a rational in lowest terms. *)
Definition dyadic (m k : Z) : Q :=
  if 0 <=? k then inject_Z (m * 2 ^ k)
  else Qred (m # Z.to_pos (2 ^ (- k))).

(** The exponent [e] of a positive [n / d]: [2 ^ e <= n / d < 2 ^ (e + 1)]. *)
Definition exponentOf (n d : Z) : Z :=
  let e0 := Z.log2 n - Z.log2 d in
  if (if 0 <=? e0 then d * 2 ^ e0 <=? n else d <=? n * 2 ^ (- e0))
  then e0 else e0 - 1.

(** The integer nearest to [num / den]; of two that are as near, the even
    one. *)
Definition roundHalfEven (num den : Z) : Z :=
  let m0 := num / den in
  let r := num mod den in
  if 2 * r <? den then m0
  else if den <? 2 * r then m0 + 1
  else if Z.even m0 then m0 else m0 + 1.

(** The Number value for a positive [n / d]: the binary64 value nearest to
    it, ties to the even significand.  The significand has 53 bits, fewer
    below [2 ^ (-1022)]; from [2 ^ 1024] on the value is Infinity. *)
Definition binary64Pos (n d : Z) : Number :=
  let k := Z.max (exponentOf n d) (-1022) - 52 in
  let num := if 0 <=? k then n else n * 2 ^ (- k) in
  let den := if 0 <=? k then d * 2 ^ k else d in
  let m := roundHalfEven num den in
  if (0 <=? k) && (2 ^ 1024 <=? m * 2 ^ k) then Infinity
  else Num (dyadic m k).

(** The Number value for the mathematical value [q] of a literal. *)
Definition binary64 (q : Q) : Number :=
  let n := Qnum q in
  let d := Z.pos (Qden q) in
  if n =? 0 then Num 0
  else if n <? 0 then
    match binary64Pos (- n) d with
    | Num v => Num (Qopp v)
    | Infinity => NegInfinity
    | other => other
    end
  else binary64Pos n d.

(** StrUnsignedDecimalLiteral. *)
Definition unsignedDecimal (s : JSString) : Number :=
  if strictEq s (js "Infinity") then Infinity
  else
    let '(ip, ni, r1) := spanDigits 10 s 0 0 in
    match r1 with
    | c :: r2 =>
        if (c =? 46)%N then
          let '(m, nf, r3) := spanDigits 10 r2 ip 0 in
          match ni, nf with
          | O, O => NaN
          | _, _ =>
              match exponentPart r3 with
              | Some e => binary64 (scale10 m (e - Z.of_nat nf))
              | None => NaN
              end
          end
        else
          match ni with
          | O => NaN
          | _ =>
              match exponentPart r1 with
              | Some e => binary64 (scale10 ip e)
              | None => NaN
              end
          end
    | [] =>
        match ni with
        | O => NaN
        | _ => binary64 (scale10 ip 0)
        end
    end.

(** NonDecimalIntegerLiteral: [0b], [0o] or [0x] and digits of the base. *)
Definition nonDecimal (s : JSString) : option Number :=
  match s with
  | z :: p :: r =>
      let base : option N :=
        if negb (z =? 48)%N then None
        else if ((p =? 98) || (p =? 66))%N then Some 2%N
        else if ((p =? 111) || (p =? 79))%N then Some 8%N
        else if ((p =? 120) || (p =? 88))%N then Some 16%N
        else None in
      match base with
      | Some b =>
          match spanDigits b r 0 0 with
          | (v, S _, []) => Some (binary64 (inject_Z (Z.of_N v)))
          | _ => None
          end
      | None => None
      end
  | _ => None
  end.

Definition negate (v : Number) : Number :=
  match v with
  | NaN => NaN
  | NegInfinity => Infinity
  | Num q => Num (Qopp q)
  | Infinity => NegInfinity
  end.

Definition StringToNumber (s : JSString) : Number :=
  match trim s with
  | [] => Num 0
  | c :: r =>
      match nonDecimal (c :: r) with
      | Some v => v
      | None =>
          if (c =? 43)%N then unsignedDecimal r
          else if (c =? 45)%N then negate (unsignedDecimal r)
          else unsignedDecimal (c :: r)
      end
  end.

(** Truthiness of the result of [localStorage.getItem]: [null] and the
    empty string are falsy. *)
Definition truthy (v : option JSString) : bool :=
  match v with
  | None | Some [] => false
  | Some (_ :: _) => true
  end.

End JS.

Import JS.

(** ** Data model *)

Record Point : Type := mkPoint { x : Z; y : Z }.

Definition BOARD_SIZE : Z := 20.
Definition INITIAL_SPEED : Z := 160.

Definition ArrowUp : Point := {| x := 0; y := -1 |}.
Definition ArrowDown : Point := {| x := 0; y := 1 |}.
Definition ArrowLeft : Point := {| x := -1; y := 0 |}.
Definition ArrowRight : Point := {| x := 1; y := 0 |}.

(** The table [DIRECTIONS], looked up with the [key] of a keyboard event: a
    key name or a typed character, none of which names a property the table
    inherits.  [None] is the [undefined] of a missing entry. *)
Definition DIRECTIONS (key : JSString) : option Point :=
  if strictEq key (js "ArrowUp") then Some ArrowUp
  else if strictEq key (js "ArrowDown") then Some ArrowDown
  else if strictEq key (js "ArrowLeft") then Some ArrowLeft
  else if strictEq key (js "ArrowRight") then Some ArrowRight
  else None.

Definition isOpposite (current next : Point) : bool :=
  (x current + x next =? 0) && (y current + y next =? 0).

(** *** [spawnFood] *)

(** The cells in the order the two loops visit them: [y] outside, [x]
    inside, both from 0 up to [BOARD_SIZE - 1]. *)
Definition boardAxis : list Z := map Z.of_nat (seq 0 (Z.to_nat BOARD_SIZE)).

Definition boardCells : list Point :=
  flat_map (fun y0 => map (fun x0 => {| x := x0; y := y0 |}) boardAxis) boardAxis.

(** [occupied.some((cell) => cell.x === x && cell.y === y)] *)
Definition occupies (occupied : list Point) (c : Point) : bool :=
  existsb (fun cell => (x cell =? x c) && (y cell =? y c)) occupied.

Definition freeCells (occupied : list Point) : list Point :=
  filter (fun c => negb (occupies occupied c)) boardCells.

(** [Math.floor(Math.random() * n)] for the draw [u], the product taken
    exactly; every index below [n] is the index of some draw (lemma
    [randomIndex_onto]). *)
Definition randomIndex (u : Q) (n : nat) : nat :=
  Z.to_nat (Qfloor (u * inject_Z (Z.of_nat n))).

(** The index is inside [freeCells] for every draw of [Math.random]
    (lemma [randomIndex_lt]); the default of [nth] is never returned. *)
Definition spawnFood (u : Q) (occupied : list Point) : Point :=
  let free := freeCells occupied in
  match free with
  | [] => {| x := 0; y := 0 |}
  | _ :: _ => nth (randomIndex u (List.length free)) free {| x := 0; y := 0 |}
  end.

(** *** The state cells of the component *)

Inductive Status : Type := ready | running | over.

Definition Status_eqb (a b : Status) : bool :=
  match a, b with
  | ready, ready | running, running | over, over => true
  | _, _ => false
  end.

Record State : Type := mkState {
  snake : list Point;
  direction : Point;
  food : Point;
  speed : Z;
  score : Z;
  bestScore : Number;
  status : Status;
  pendingDirection : option Point
}.

Definition initialSnake : list Point :=
  [ {| x := 10; y := 10 |}; {| x := 9; y := 10 |}; {| x := 8; y := 10 |} ].

(** The state of the first render; [u] is the draw of the lazy initialiser
    of [food]. *)
Definition initialState (u : Q) : State :=
  {| snake := initialSnake;
     direction := ArrowRight;
     food := spawnFood u initialSnake;
     speed := INITIAL_SPEED;
     score := 0;
     bestScore := ofZ 0;
     status := ready;
     pendingDirection := None |}.

(** ** Operations *)

Definition resetGame (u : Q) (s : State) : State :=
  {| snake := initialSnake;
     direction := ArrowRight;
     food := spawnFood u initialSnake;
     speed := INITIAL_SPEED;
     score := 0;
     bestScore := bestScore s;
     status := running;
     pendingDirection := None |}.

(** [pendingDirection.current ?? direction] *)
Definition effectiveDirection (s : State) : Point :=
  match pendingDirection s with
  | Some d => d
  | None => direction s
  end.

Definition add (p d : Point) : Point :=
  {| x := x p + x d; y := y p + y d |}.

Definition hitWall (nextHead : Point) : bool :=
  (x nextHead <? 0) || (x nextHead >=? BOARD_SIZE)
  || (y nextHead <? 0) || (y nextHead >=? BOARD_SIZE).

Definition hitSelf (currentSnake : list Point) (nextHead : Point) : bool :=
  existsb (fun segment => (x segment =? x nextHead) && (y segment =? y nextHead))
          currentSnake.

(** The body of [tick].  [None] is the TypeError of reading [head.x] when
    the snake has no segment. *)
Definition tick (u : Q) (s : State) : option State :=
  let currentSnake := snake s in
  let activeDirection := effectiveDirection s in
  match currentSnake with
  | [] => None
  | head :: _ =>
      let nextHead := add head activeDirection in
      if hitWall nextHead || hitSelf currentSnake nextHead then
        Some {| snake := currentSnake;
                direction := direction s;
                food := food s;
                speed := speed s;
                score := score s;
                bestScore := Math_max (bestScore s) (ofZ (score s));
                status := over;
                pendingDirection := None |}
      else
        let hasEaten := (x nextHead =? x (food s)) && (y nextHead =? y (food s)) in
        let newSnake := nextHead :: currentSnake in
        if negb hasEaten then
          Some {| snake := removelast newSnake;
                  direction := direction s;
                  food := food s;
                  speed := speed s;
                  score := score s;
                  bestScore := bestScore s;
                  status := status s;
                  pendingDirection := None |}
        else
          Some {| snake := newSnake;
                  direction := direction s;
                  food := spawnFood u newSnake;
                  speed := Z.max 60 (speed s - 5);
                  score := score s + 1;
                  bestScore := bestScore s;
                  status := status s;
                  pendingDirection := None |}
  end.

Definition setStatus (v : Status) (s : State) : State :=
  {| snake := snake s; direction := direction s; food := food s;
     speed := speed s; score := score s; bestScore := bestScore s;
     status := v; pendingDirection := pendingDirection s |}.

Definition setPending (v : option Point) (s : State) : State :=
  {| snake := snake s; direction := direction s; food := food s;
     speed := speed s; score := score s; bestScore := bestScore s;
     status := status s; pendingDirection := v |}.

Definition setBestScore (v : Number) (s : State) : State :=
  {| snake := snake s; direction := direction s; food := food s;
     speed := speed s; score := score s; bestScore := v;
     status := status s; pendingDirection := pendingDirection s |}.

(** The part of [handleKeyDown] that follows the lookup of the key in
    [DIRECTIONS].  The tests read [status], the value of the render the
    listener was created in: [setStatus] changes the state cell, not that
    value. *)
Definition steer (next : Point) (s : State) : State :=
  let s1 := if Status_eqb (status s) ready then setStatus running s else s in
  if negb (Status_eqb (status s) running) then s1
  else
    let currentDirection := effectiveDirection s in
    if isOpposite currentDirection next then s1
    else setPending (Some next) s1.

Definition handleKeyDown (u : Q) (key : JSString) (s : State) : State :=
  if strictEq key (js " ") && negb (Status_eqb (status s) running) then
    resetGame u s
  else
    match DIRECTIONS key with
    | None => s
    | Some next => steer next s
    end.

(** The effect that loads the best score, run once after the first render. *)
Definition loadBestScore (storedBest : option JSString) (s : State) : State :=
  if truthy storedBest then
    match storedBest with
    | Some str => setBestScore (StringToNumber str) s
    | None => s
    end
  else s.

(** The state once the component is mounted. *)
Definition startup (u : Q) (storedBest : option JSString) : State :=
  loadBestScore storedBest (initialState u).

(** *** Events *)

(** What can happen to a mounted component.  The interval that calls [tick]
    exists only while [status] is [running]; the restart button is rendered
    only while [status] is [over]. *)
Inductive Event : Type :=
| Timer (u : Q)
| KeyDown (u : Q) (key : JSString)
| ClickRestart (u : Q).

Definition step (e : Event) (s : State) : option State :=
  match e with
  | Timer u => if Status_eqb (status s) running then tick u s else Some s
  | KeyDown u key => Some (handleKeyDown u key s)
  | ClickRestart u => if Status_eqb (status s) over then Some (resetGame u s) else Some s
  end.

(** A draw of [Math.random]. *)
Definition isRandom (u : Q) : Prop := (0 <= u)%Q /\ (u < 1)%Q.

Definition eventDraw (e : Event) : Q :=
  match e with
  | Timer u | KeyDown u _ | ClickRestart u => u
  end.

Inductive reachable : State -> Prop :=
| reach_startup u storedBest :
    isRandom u -> reachable (startup u storedBest)
| reach_step e s s' :
    reachable s -> isRandom (eventDraw e) -> step e s = Some s' -> reachable s'.

(** ** Vocabulary of the statements *)

(** A cell of the board. *)
Definition onBoard (c : Point) : Prop :=
  0 <= x c < BOARD_SIZE /\ 0 <= y c < BOARD_SIZE.

(** The cell the head moves to, and what makes the move a collision: a
    wall, or a segment of the snake as it is before the move. *)
Definition nextHeadOf (s : State) (head : Point) : Point :=
  add head (effectiveDirection s).

Definition collides (s : State) (nextHead : Point) : Prop :=
  (x nextHead < 0 \/ x nextHead >= BOARD_SIZE
   \/ y nextHead < 0 \/ y nextHead >= BOARD_SIZE)
  \/ In nextHead (snake s).

(** The cells that only [tick] and [resetGame] write. *)
Definition sameGame (s s' : State) : Prop :=
  snake s' = snake s /\ food s' = food s /\ score s' = score s
  /\ speed s' = speed s /\ direction s' = direction s
  /\ bestScore s' = bestScore s.

(** The snake has no repeated segment and as many segments as the start
    layout plus the food eaten. *)
Definition wellFormed (s : State) : Prop :=
  NoDup (snake s)
  /\ Z.of_nat (List.length (snake s)) = 3 + score s
  /\ 0 <= score s.

(** The food is off the snake unless the snake covers the board. *)
Definition foodApart (s : State) : Prop :=
  freeCells (snake s) <> [] -> ~ In (food s) (snake s).

(** Strings of decimal digits and their value; the code units a numeric
    literal can start with. *)
Definition isDecimalDigit (c : N) : bool := ((48 <=? c) && (c <=? 57))%N.

Definition decimalValue (digits : JSString) : N :=
  fold_left (fun acc c => (acc * 10 + (c - 48))%N) digits 0%N.


(** ** Runs of events *)

Fixpoint run (es : list Event) (s : State) : option State :=
  match es with
  | [] => Some s
  | e :: rest =>
      match step e s with
      | Some s' => run rest s'
      | None => None
      end
  end.

Definition isRandomb (u : Q) : bool := Qle_bool 0 u && negb (Qle_bool 1 u).

Definition drawsOk (es : list Event) : bool :=
  forallb (fun e => isRandomb (eventDraw e)) es.

(** *** A game that fills the board

    The snake eats at every tick: each food appears on the cell the head
    enters next.  From the start layout the head walks to the right wall,
    sweeps the rows below row 10 column by column from right to left, comes
    back up along the left of row 10, and sweeps the rows above it. *)

Definition go (d : Point) (n : nat) : list Point := repeat d n.

Definition fillWalk : list Point :=
  go ArrowRight 9 ++ go ArrowDown 9
  ++ flat_map (fun c => go ArrowLeft 1
                        ++ go (if Nat.even c then ArrowUp else ArrowDown) 8)
              (rev (seq 0 19))
  ++ go ArrowUp 1 ++ go ArrowRight 7 ++ go ArrowUp 1 ++ go ArrowLeft 7
  ++ go ArrowUp 1 ++ go ArrowRight 8
  ++ flat_map (fun c => go ArrowDown 1 ++ go ArrowRight 1 ++ go ArrowUp 1
                        ++ go ArrowRight (if (c <? 5)%nat then 1 else 0))
              (seq 0 6)
  ++ flat_map (fun r => go ArrowUp 1
                        ++ go (if Nat.even r then ArrowLeft else ArrowRight) 19)
              (seq 0 8).

(** The keys pressed before a tick to make it move along [d]: none for
    right, the state direction; up before left, which is refused while the
    effective direction is right. *)
Definition keysFor (d : Point) : list JSString :=
  if x d =? 1 then []
  else if x d =? -1 then [js "ArrowUp"; js "ArrowLeft"]
  else if y d =? -1 then [js "ArrowUp"]
  else [js "ArrowDown"].

(** The index, in the free list of its tick, of the cell entered at the
    next tick. *)
Definition fillDraws : list Z :=
    [208; 208; 208; 208; 208; 208; 208; 208; 227; 246; 265; 284; 303; 322; 341; 360; 379; 378; 359; 340;
     321; 302; 283; 264; 245; 226; 225; 242; 259; 276; 293; 310; 327; 344; 361; 360; 343; 326; 309; 292;
     275; 258; 241; 224; 223; 238; 253; 268; 283; 298; 313; 328; 343; 342; 327; 312; 297; 282; 267; 252;
     237; 222; 221; 234; 247; 260; 273; 286; 299; 312; 325; 324; 311; 298; 285; 272; 259; 246; 233; 220;
     219; 230; 241; 252; 263; 274; 285; 296; 307; 306; 295; 284; 273; 262; 251; 240; 229; 218; 217; 226;
     235; 244; 253; 262; 271; 280; 289; 288; 279; 270; 261; 252; 243; 234; 225; 216; 215; 222; 229; 236;
     243; 250; 257; 264; 271; 270; 263; 256; 249; 242; 235; 228; 221; 214; 213; 218; 223; 228; 233; 238;
     243; 248; 253; 252; 247; 242; 237; 232; 227; 222; 217; 212; 211; 214; 217; 220; 223; 226; 229; 232;
     235; 234; 231; 228; 225; 222; 219; 216; 213; 210; 209; 210; 211; 212; 213; 214; 215; 216; 217; 216;
     215; 214; 213; 212; 211; 210; 209; 208; 200; 200; 200; 200; 200; 200; 200; 200; 187; 186; 185; 184;
     183; 182; 181; 180; 160; 160; 160; 160; 160; 160; 160; 160; 160; 171; 171; 160; 160; 169; 169; 160;
     160; 167; 167; 160; 160; 165; 165; 160; 160; 163; 163; 160; 160; 161; 161; 160; 159; 158; 157; 156;
     155; 154; 153; 152; 151; 150; 149; 148; 147; 146; 145; 144; 143; 142; 141; 140; 120; 120; 120; 120;
     120; 120; 120; 120; 120; 120; 120; 120; 120; 120; 120; 120; 120; 120; 120; 120; 119; 118; 117; 116;
     115; 114; 113; 112; 111; 110; 109; 108; 107; 106; 105; 104; 103; 102; 101; 100; 80; 80; 80; 80;
     80; 80; 80; 80; 80; 80; 80; 80; 80; 80; 80; 80; 80; 80; 80; 80; 79; 78; 77; 76;
     75; 74; 73; 72; 71; 70; 69; 68; 67; 66; 65; 64; 63; 62; 61; 60; 40; 40; 40; 40;
     40; 40; 40; 40; 40; 40; 40; 40; 40; 40; 40; 40; 40; 40; 40; 40; 39; 38; 37; 36;
     35; 34; 33; 32; 31; 30; 29; 28; 27; 26; 25; 24; 23; 22; 21; 20; 0; 0; 0; 0;
     0; 0; 0; 0; 0; 0; 0; 0; 0; 0; 0; 0; 0; 0; 0; 0; 0].

(** The events of the walk: [free] is the number of free cells left after
    the tick. *)
Fixpoint feast (moves : list Point) (draws : list Z) (free : nat) : list Event :=
  match moves, draws with
  | d :: ms, i :: ds =>
      map (KeyDown 0) (keysFor d)
      ++ Timer (i # Pos.of_nat free) :: feast ms ds (pred free)
  | _, _ => []
  end.

(** Nothing stored; the first food in front of the head; any arrow key
    starts the game. *)
Definition fillStart : State := startup (208 # 397) None.

Definition fillTrace : list Event :=
  KeyDown 0 (js "ArrowRight") :: feast fillWalk fillDraws 396.

(** At the end of the run the snake is on the 400 cells of the board and on
    the food, at (0, 0). *)
Definition fullAndFed (es : list Event) (start : State) : bool :=
  match run es start with
  | Some s =>
      Nat.eqb (List.length (snake s)) 400
      && match freeCells (snake s) with [] => true | _ => false end
      && (x (food s) =? 0) && (y (food s) =? 0)
      && occupies (snake s) (food s)
  | None => false
  end.

(** *** Sample states *)

(** A running game with nothing stored: the snake, the food, the buffered
    direction and the number of foods eaten so far. *)
Definition midGame (snake0 : list Point) (food0 : Point)
                   (pending : option Point) (eaten : Z) : State :=
  {| snake := snake0;
     direction := ArrowRight;
     food := food0;
     speed := Z.max 60 (INITIAL_SPEED - 5 * eaten);
     score := eaten;
     bestScore := ofZ 0;
     status := running;
     pendingDirection := pending |}.

(** The start layout, food away from the head. *)
Definition cruising : State := midGame initialSnake {| x := 3; y := 4 |} None 0.

(** The start layout, food in front of the head. *)
Definition aboutToEat : State :=
  midGame initialSnake {| x := 11; y := 10 |} None 0.

(** About to leave the board on the right. *)
Definition atRightWall : State :=
  midGame [ {| x := 19; y := 5 |}; {| x := 18; y := 5 |}; {| x := 17; y := 5 |} ]
          {| x := 3; y := 4 |} None 0.

(** Four segments in a square, the head turning down onto the tail. *)
Definition chasingTail : State :=
  midGame [ {| x := 5; y := 5 |}; {| x := 6; y := 5 |};
            {| x := 6; y := 6 |}; {| x := 5; y := 6 |} ]
          {| x := 3; y := 4 |} (Some ArrowDown) 1.

(** ** Shape of the game beyond the stated claims *)

(** A step of one cell along an axis, and two cells one such step apart. *)
Definition unitVector (d : Point) : Prop := Z.abs (x d) + Z.abs (y d) = 1.

Definition adjacent (a b : Point) : Prop :=
  Z.abs (x a - x b) + Z.abs (y a - y b) = 1.

(** Each segment is next to the one that follows it. *)
Fixpoint chain (l : list Point) : Prop :=
  match l with
  | a :: (b :: _) as r => adjacent a b /\ chain r
  | _ => True
  end.

(** Snake and food are on the board. *)
Definition inBounds (s : State) : Prop :=
  Forall onBoard (snake s) /\ onBoard (food s).

(** The snake is a chain and only table directions are buffered. *)
Definition steady (s : State) : Prop :=
  chain (snake s)
  /\ (forall d, pendingDirection s = Some d -> unitVector d).

(** The vector that points the other way. *)
Definition negated (d : Point) : Point := {| x := - x d; y := - y d |}.

(** *** The grid handed to the page *)

Inductive CellKind : Type := cell_empty | cell_snake | cell_food.

(** An array of cells; [None] is a hole. *)
Definition Row : Type := list (option CellKind).

(** The array with the element of index [j] replaced. *)
Definition update {A : Type} (j : nat) (a : A) (l : list A) : list A :=
  firstn j l ++ a :: skipn (S j) l.

(** [row[i] = v].  Inside the array the element is replaced; past its end
    the array grows, with holes up to [i]; a negative [i] names a property
    that is no element of the array. *)
Definition rowSet (row : Row) (i : Z) (v : CellKind) : Row :=
  if i <? 0 then row
  else if i <? Z.of_nat (List.length row) then update (Z.to_nat i) (Some v) row
  else row ++ repeat None (Z.to_nat i - List.length row) ++ [Some v].

(** [cells[p.y][p.x] = v].  [None] is the TypeError of the write into
    [undefined] when [cells] has no row of index [p.y]. *)
Definition cellSet (cells : list Row) (p : Point) (v : CellKind)
  : option (list Row) :=
  if (y p <? 0) || (Z.of_nat (List.length cells) <=? y p) then None
  else
    let j := Z.to_nat (y p) in
    Some (update j (rowSet (nth j cells []) (x p) v) cells).

Definition emptyGrid : list Row :=
  repeat (repeat (Some cell_empty) (Z.to_nat BOARD_SIZE)) (Z.to_nat BOARD_SIZE).

(** The memoised [grid]: the snake is painted segment by segment from the
    head, then the food. *)
Definition grid (s : State) : option (list Row) :=
  match fold_left (fun acc segment =>
                     match acc with
                     | Some cells => cellSet cells segment cell_snake
                     | None => None
                     end)
                  (snake s) (Some emptyGrid) with
  | Some cells => cellSet cells (food s) cell_food
  | None => None
  end.

(** [cells[c.y][c.x]] as the page reads it; [None] for a hole or no
    element. *)
Definition cellAt (cells : list Row) (c : Point) : option CellKind :=
  match nth_error cells (Z.to_nat (y c)) with
  | Some row =>
      match nth_error row (Z.to_nat (x c)) with
      | Some v => v
      | None => None
      end
  | None => None
  end.

(** Twenty rows of twenty cells, none a hole. *)
Definition fullGrid (cells : list Row) : Prop :=
  List.length cells = 20%nat
  /\ Forall (fun row => List.length row = 20%nat /\ ~ In None row) cells.

(** What the page shows at a cell. *)
Definition shown (s : State) (c : Point) : CellKind :=
  if (x c =? x (food s)) && (y c =? y (food s)) then cell_food
  else if occupies (snake s) c then cell_snake
  else cell_empty.

(** *** The best score written to the store *)

(** The decimal digits of [n], at most [fuel] of them. *)
Fixpoint digitsOf (fuel : nat) (n : N) : JSString :=
  match fuel with
  | O => []
  | S fuel' =>
      if (n <? 10)%N then [(48 + n)%N]
      else digitsOf fuel' (n / 10)%N ++ [(48 + n mod 10)%N]
  end.

(** [String(v)] for a number: the names of NaN and of the infinities, and
    the decimal digits, after a minus sign if negative, of an integer up to
    2^53 in magnitude: each of these is a Number value and is written in
    full.  [None] for the other numbers, which are written with the shortest
    digits that read back as the same value, with a fraction or an exponent
    where needed, and are left out of this model. *)
Definition ToString (v : Number) : option JSString :=
  match v with
  | NaN => Some (js "NaN")
  | Infinity => Some (js "Infinity")
  | NegInfinity => Some (js "-Infinity")
  | Num q =>
      let z := Qfloor q in
      if Qeq_bool q (inject_Z z) && (Z.abs z <=? 2 ^ 53) then
        Some ((if z <? 0 then [45%N] else []) ++ digitsOf 16 (Z.abs_N z))
      else None
  end.

(** The effect that stores the best score: the string it leaves under the
    key ["snake-best-score"]. *)
Definition storeBestScore (s : State) : option JSString :=
  ToString (bestScore s).

(** *** More sample states *)

(** Ten ticks after the first arrow key: nine cells to the right, then the
    wall. *)
Definition crashTrace : list Event :=
  KeyDown 0 (js "ArrowRight") :: repeat (Timer 0) 10.

(** The state [crashTrace] ends in, from a component mounted with nothing
    stored and the food at (0, 0). *)
Definition crashed : State :=
  {| snake := [ {| x := 19; y := 10 |}; {| x := 18; y := 10 |};
                {| x := 17; y := 10 |} ];
     direction := ArrowRight;
     food := {| x := 0; y := 0 |};
     speed := INITIAL_SPEED;
     score := 0;
     bestScore := ofZ 0;
     status := over;
     pendingDirection := None |}.

(** A snake on every cell of the board. *)
Definition boardFilled : State :=
  midGame boardCells {| x := 0; y := 0 |} None 397.

(** A segment below the last row. *)
Definition belowTheBoard : State :=
  midGame [ {| x := 5; y := 20 |}; {| x := 5; y := 19 |}; {| x := 5; y := 18 |} ]
          {| x := 3; y := 4 |} None 0.

(** ** Cells, occupation and the free list *)

Lemma Point_eta (c : Point) : {| x := x c; y := y c |} = c.
Proof. destruct c; reflexivity. Qed.

Lemma Point_ext (c d : Point) : x c = x d -> y c = y d -> c = d.
Proof. destruct c, d; simpl; intros; subst; reflexivity. Qed.

Lemma occupies_In (occupied : list Point) (c : Point) :
  occupies occupied c = true <-> In c occupied.
Proof.
  unfold occupies. rewrite existsb_exists. split.
  - intros [cell [Hin Heq]].
    apply andb_true_iff in Heq. destruct Heq as [Hx Hy].
    apply Z.eqb_eq in Hx. apply Z.eqb_eq in Hy.
    rewrite <- (Point_ext cell c Hx Hy). exact Hin.
  - intros Hin. exists c. split; [exact Hin|].
    rewrite !Z.eqb_refl. reflexivity.
Qed.

Lemma hitSelf_In (currentSnake : list Point) (nextHead : Point) :
  hitSelf currentSnake nextHead = true <-> In nextHead currentSnake.
Proof. exact (occupies_In currentSnake nextHead). Qed.

Lemma hitWall_false (c : Point) : hitWall c = false <-> onBoard c.
Proof.
  unfold hitWall, onBoard, BOARD_SIZE.
  rewrite !orb_false_iff, !Z.ltb_ge, !Z.geb_leb, !Z.leb_gt. lia.
Qed.

Lemma hitWall_true (c : Point) :
  hitWall c = true <->
  (x c < 0 \/ x c >= BOARD_SIZE \/ y c < 0 \/ y c >= BOARD_SIZE).
Proof.
  unfold hitWall, BOARD_SIZE.
  rewrite !orb_true_iff, !Z.ltb_lt, !Z.geb_leb, !Z.leb_le. lia.
Qed.

Lemma boardAxis_In (v : Z) : In v boardAxis <-> 0 <= v < BOARD_SIZE.
Proof.
  unfold boardAxis, BOARD_SIZE. rewrite in_map_iff. split.
  - intros [n [Hn Hin]]. apply in_seq in Hin. lia.
  - intros Hv. exists (Z.to_nat v). split; [lia|]. apply in_seq. lia.
Qed.

Lemma boardCells_In (c : Point) : In c boardCells <-> onBoard c.
Proof.
  unfold boardCells, onBoard. rewrite in_flat_map. split.
  - intros [y0 [Hy Hin]]. apply in_map_iff in Hin.
    destruct Hin as [x0 [Hc Hx]]. subst c. simpl.
    apply boardAxis_In in Hy. apply boardAxis_In in Hx. lia.
  - intros [Hx Hy]. exists (y c). split; [apply boardAxis_In; exact Hy|].
    apply in_map_iff. exists (x c). split; [apply Point_eta|].
    apply boardAxis_In; exact Hx.
Qed.

Lemma freeCells_In (occupied : list Point) (c : Point) :
  In c (freeCells occupied) <-> onBoard c /\ ~ In c occupied.
Proof.
  unfold freeCells. rewrite filter_In, boardCells_In, negb_true_iff.
  rewrite <- (occupies_In occupied c).
  destruct (occupies occupied c); intuition congruence.
Qed.

(** No free cell means that the snake lies on every cell of the board. *)
Lemma freeCells_nil (occupied : list Point) :
  freeCells occupied = [] <-> (forall c, onBoard c -> In c occupied).
Proof.
  split.
  - intros Hnil c Hc.
    destruct (occupies occupied c) eqn:Ho; [apply occupies_In; exact Ho|].
    assert (Hin : In c (freeCells occupied)).
    { apply freeCells_In. split; [exact Hc|].
      intros Hin. apply occupies_In in Hin. congruence. }
    rewrite Hnil in Hin. destruct Hin.
  - intros Hall. destruct (freeCells occupied) as [|c l] eqn:Hf; [reflexivity|].
    assert (Hin : In c (freeCells occupied)) by (rewrite Hf; left; reflexivity).
    apply freeCells_In in Hin. destruct Hin as [Hc Hn].
    exfalso. apply Hn, Hall, Hc.
Qed.

(** ** The random index *)

Lemma randomIndex_lt (u : Q) (n : nat) :
  isRandom u -> (0 < n)%nat -> (randomIndex u n < n)%nat.
Proof.
  intros [H0 H1] Hn. unfold randomIndex.
  set (q := (u * inject_Z (Z.of_nat n))%Q).
  assert (Hnq : (0 < inject_Z (Z.of_nat n))%Q).
  { unfold Qlt; simpl. lia. }
  assert (Hlo : (0 <= q)%Q).
  { unfold q. apply Qmult_le_0_compat; [exact H0 | apply Qlt_le_weak; exact Hnq]. }
  assert (Hhi : (q < inject_Z (Z.of_nat n))%Q).
  { unfold q.
    setoid_replace (inject_Z (Z.of_nat n)) with (1 * inject_Z (Z.of_nat n))%Q at 2
      by ring.
    apply Qmult_lt_compat_r; assumption. }
  assert (Hf0 : 0 <= Qfloor q).
  { change 0 with (Qfloor (inject_Z 0)).
    apply Qfloor_resp_le. exact Hlo. }
  assert (Hf1 : Qfloor q < Z.of_nat n).
  { destruct (Z_lt_le_dec (Qfloor q) (Z.of_nat n)) as [Hlt|Hge]; [exact Hlt|].
    exfalso. apply (Qlt_irrefl q).
    eapply Qlt_le_trans; [exact Hhi|].
    eapply Qle_trans; [|apply Qfloor_le].
    rewrite <- Zle_Qle. exact Hge. }
  lia.
Qed.

(** Every index below [n] is the index of some draw. *)
Lemma randomIndex_onto (n i : nat) :
  (i < n)%nat ->
  isRandom (Z.of_nat i # Pos.of_nat n)
  /\ randomIndex (Z.of_nat i # Pos.of_nat n) n = i.
Proof.
  intros Hi.
  assert (Hn : Z.pos (Pos.of_nat n) = Z.of_nat n).
  { rewrite <- positive_nat_Z. rewrite Nat2Pos.id by lia. reflexivity. }
  split.
  - split; unfold Qle, Qlt; simpl; rewrite ?Hn; lia.
  - unfold randomIndex, Qfloor, Qmult, inject_Z. cbn [Qnum Qden].
    rewrite Pos.mul_1_r, Hn, Z.div_mul by lia. apply Nat2Z.id.
Qed.

Lemma spawnFood_free (u : Q) (occupied : list Point) :
  isRandom u -> freeCells occupied <> [] ->
  In (spawnFood u occupied) (freeCells occupied).
Proof.
  intros Hu Hne. unfold spawnFood.
  destruct (freeCells occupied) as [|c l] eqn:Hf; [congruence|].
  apply nth_In. apply randomIndex_lt; [exact Hu | simpl; lia].
Qed.

Lemma spawnFood_fallback (u : Q) (occupied : list Point) :
  freeCells occupied = [] -> spawnFood u occupied = {| x := 0; y := 0 |}.
Proof. intros Hf. unfold spawnFood. rewrite Hf. reflexivity. Qed.

Lemma spawnFood_avoids (u : Q) (occupied : list Point) :
  isRandom u -> freeCells occupied <> [] ->
  onBoard (spawnFood u occupied) /\ ~ In (spawnFood u occupied) occupied.
Proof.
  intros Hu Hne. apply freeCells_In. apply spawnFood_free; assumption.
Qed.

(** ** The three outcomes of [tick] *)

Lemma collides_test (s : State) (nextHead : Point) :
  hitWall nextHead || hitSelf (snake s) nextHead = true <-> collides s nextHead.
Proof.
  unfold collides. rewrite orb_true_iff, hitWall_true, hitSelf_In. reflexivity.
Qed.

Lemma collides_dec (s : State) (nextHead : Point) :
  hitWall nextHead || hitSelf (snake s) nextHead = false <-> ~ collides s nextHead.
Proof.
  rewrite <- collides_test.
  destruct (hitWall nextHead || hitSelf (snake s) nextHead); intuition congruence.
Qed.

Lemma hasEaten_true (c f : Point) :
  (x c =? x f) && (y c =? y f) = true <-> c = f.
Proof.
  rewrite andb_true_iff, !Z.eqb_eq. split.
  - intros [Hx Hy]. apply Point_ext; assumption.
  - intros ->. split; reflexivity.
Qed.

Lemma hasEaten_false (c f : Point) :
  (x c =? x f) && (y c =? y f) = false <-> c <> f.
Proof.
  rewrite <- hasEaten_true.
  destruct ((x c =? x f) && (y c =? y f)); intuition congruence.
Qed.

Lemma tick_collision (u : Q) (s : State) (head : Point) (rest : list Point) :
  snake s = head :: rest ->
  collides s (nextHeadOf s head) ->
  tick u s =
  Some {| snake := snake s; direction := direction s; food := food s;
          speed := speed s; score := score s;
          bestScore := Math_max (bestScore s) (ofZ (score s));
          status := over; pendingDirection := None |}.
Proof.
  intros Hs Hc. apply collides_test in Hc. unfold nextHeadOf in Hc.
  unfold tick. rewrite Hs in *. rewrite Hc. reflexivity.
Qed.

Lemma tick_eat (u : Q) (s : State) (head : Point) (rest : list Point) :
  snake s = head :: rest ->
  ~ collides s (nextHeadOf s head) ->
  nextHeadOf s head = food s ->
  tick u s =
  Some {| snake := nextHeadOf s head :: snake s; direction := direction s;
          food := spawnFood u (nextHeadOf s head :: snake s);
          speed := Z.max 60 (speed s - 5); score := score s + 1;
          bestScore := bestScore s; status := status s;
          pendingDirection := None |}.
Proof.
  intros Hs Hc He. apply collides_dec in Hc. apply hasEaten_true in He.
  unfold nextHeadOf in *. unfold tick. rewrite Hs in *. rewrite Hc, He.
  reflexivity.
Qed.

Lemma tick_move (u : Q) (s : State) (head : Point) (rest : list Point) :
  snake s = head :: rest ->
  ~ collides s (nextHeadOf s head) ->
  nextHeadOf s head <> food s ->
  tick u s =
  Some {| snake := removelast (nextHeadOf s head :: snake s);
          direction := direction s; food := food s;
          speed := speed s; score := score s;
          bestScore := bestScore s; status := status s;
          pendingDirection := None |}.
Proof.
  intros Hs Hc He. apply collides_dec in Hc. apply hasEaten_false in He.
  unfold nextHeadOf in *. unfold tick. rewrite Hs in *. rewrite Hc, He.
  reflexivity.
Qed.

Lemma collides_decidable (s : State) (c : Point) : collides s c \/ ~ collides s c.
Proof.
  destruct (hitWall c || hitSelf (snake s) c) eqn:E.
  - left. apply collides_test. exact E.
  - right. apply collides_dec. exact E.
Qed.

Lemma Point_eq_dec (c d : Point) : {c = d} + {c <> d}.
Proof. decide equality; apply Z.eq_dec. Defined.

(** [tick] returns on every state whose snake has a head. *)
Lemma tick_total (u : Q) (s : State) :
  snake s <> [] -> exists s', tick u s = Some s'.
Proof.
  intros Hne. destruct (snake s) as [|head rest] eqn:Hs; [congruence|].
  destruct (collides_decidable s (nextHeadOf s head)) as [Hc|Hc].
  - eexists. eapply tick_collision; eassumption.
  - destruct (Point_eq_dec (nextHeadOf s head) (food s)) as [He|He].
    + eexists. eapply tick_eat; eassumption.
    + eexists. eapply tick_move; eassumption.
Qed.

Lemma step_Timer_running (u : Q) (s : State) :
  status s = running -> step (Timer u) s = tick u s.
Proof. intros Hr. simpl. rewrite Hr. reflexivity. Qed.

Lemma removelast_cons_length (A : Type) (a : A) (l : list A) :
  List.length (removelast (a :: l)) = List.length l.
Proof.
  revert a. induction l as [|b l IH]; intros a; [reflexivity|].
  change (removelast (a :: b :: l)) with (a :: removelast (b :: l)).
  cbn [List.length]. rewrite IH. reflexivity.
Qed.

Lemma removelast_cons_nonempty (A : Type) (a b : A) (l : list A) :
  removelast (a :: b :: l) = a :: removelast (b :: l).
Proof. reflexivity. Qed.

Lemma removelast_incl (A : Type) (l : list A) (a : A) :
  In a (removelast l) -> In a l.
Proof.
  induction l as [|b l IH]; [intros []|].
  destruct l as [|c l]; [intros []|].
  rewrite removelast_cons_nonempty. intros [H|H]; [left; exact H|].
  right. apply IH. exact H.
Qed.

Lemma removelast_NoDup (A : Type) (l : list A) :
  NoDup l -> NoDup (removelast l).
Proof.
  induction l as [|b l IH]; intros Hnd; [constructor|].
  destruct l as [|c l]; [constructor|].
  rewrite removelast_cons_nonempty. inversion Hnd as [|? ? Hnin Hnd']; subst.
  constructor.
  - intros Hin. apply Hnin. apply removelast_incl. exact Hin.
  - apply IH. exact Hnd'.
Qed.

Lemma Math_max_ofZ (a b : Z) : Math_max (ofZ a) (ofZ b) = ofZ (Z.max a b).
Proof.
  unfold Math_max, ofZ.
  destruct (Qle_bool (inject_Z a) (inject_Z b)) eqn:E.
  - apply Qle_bool_iff in E. rewrite <- Zle_Qle in E.
    rewrite Z.max_r by exact E. reflexivity.
  - assert (Hgt : ~ a <= b).
    { intros Hle. rewrite Zle_Qle in Hle. apply Qle_bool_iff in Hle. congruence. }
    rewrite Z.max_l by lia. reflexivity.
Qed.

Lemma last_In (A : Type) (l : list A) (d : A) : l <> [] -> In (last l d) l.
Proof.
  induction l as [|a l IH]; [congruence|]. intros _.
  destruct l as [|b l]; [left; reflexivity|].
  right. apply IH. discriminate.
Qed.

(** ** Collisions *)

(** C3: in a running state, a tick whose next head (head plus effective
    direction) is a segment of the snake as it is before the move is a self
    collision and ends the game; the tail, last segment of that snake, is one
    of the segments tested, so moving into the cell the tail is about to leave
    ends the game as well. *)
Theorem tick_self_collision
  (u : Q) (s : State) (head : Point) (rest : list Point) (segment : Point) :
  status s = running ->
  snake s = head :: rest ->
  In segment (snake s) ->
  nextHeadOf s head = segment ->
  hitSelf (snake s) (nextHeadOf s head) = true
  /\ In (last (snake s) head) (snake s)
  /\ exists s', step (Timer u) s = Some s'
                /\ status s' = over /\ snake s' = snake s.
Proof.
  intros Hrun Hs Hin Hnext.
  split; [apply hitSelf_In; rewrite Hnext; exact Hin|].
  split; [apply last_In; rewrite Hs; discriminate|].
  rewrite (step_Timer_running u s Hrun).
  rewrite (tick_collision u s head rest Hs).
  - eexists. split; [reflexivity|]. split; reflexivity.
  - right. rewrite Hnext. exact Hin.
Qed.

(** C4: in a running state, when the next head of the tick is outside
    [0, 20) on an axis or is a segment of the snake before the move, the tick
    leaves status [over], best score [Math.max(best score, score)] (the larger
    of the two when the best score is an integer) and the snake as it was. *)
Theorem tick_collision_game_over
  (u : Q) (s : State) (head : Point) (rest : list Point) :
  status s = running ->
  snake s = head :: rest ->
  (x (nextHeadOf s head) < 0 \/ x (nextHeadOf s head) >= 20
   \/ y (nextHeadOf s head) < 0 \/ y (nextHeadOf s head) >= 20)
  \/ In (nextHeadOf s head) (snake s) ->
  exists s', step (Timer u) s = Some s'
             /\ status s' = over
             /\ bestScore s' = Math_max (bestScore s) (ofZ (score s))
             /\ (forall b, bestScore s = ofZ b ->
                           bestScore s' = ofZ (Z.max b (score s)))
             /\ snake s' = snake s.
Proof.
  intros Hrun Hs Hc.
  rewrite (step_Timer_running u s Hrun).
  rewrite (tick_collision u s head rest Hs Hc).
  eexists. split; [reflexivity|]. cbn [status bestScore snake].
  repeat split.
  intros b Hb. rewrite Hb. apply Math_max_ofZ.
Qed.

(** ** Moves *)

(** C5: in a running state, when the next head of the tick hits neither a
    wall nor the snake and is the food cell, the tick puts the new head in
    front of the whole snake (one segment more, the tail stays), adds 1 to the
    score, takes 5 off the speed interval but not below 60, and draws the new
    food with [spawnFood] on the grown snake: a cell of the board that is on
    no segment of the grown snake, unless the grown snake lies on every cell of
    the board, and then the cell (0, 0). *)
Theorem tick_eats_food
  (u : Q) (s : State) (head : Point) (rest : list Point) :
  status s = running ->
  snake s = head :: rest ->
  ~ collides s (nextHeadOf s head) ->
  nextHeadOf s head = food s ->
  isRandom u ->
  exists s', step (Timer u) s = Some s'
             /\ snake s' = nextHeadOf s head :: snake s
             /\ List.length (snake s') = S (List.length (snake s))
             /\ score s' = score s + 1
             /\ speed s' = Z.max 60 (speed s - 5)
             /\ food s' = spawnFood u (snake s')
             /\ ((0 <= x (food s') < 20 /\ 0 <= y (food s') < 20
                  /\ ~ In (food s') (snake s'))
                 \/ (food s' = {| x := 0; y := 0 |}
                     /\ forall c, 0 <= x c < 20 -> 0 <= y c < 20 ->
                                  In c (snake s'))).
Proof.
  intros Hrun Hs Hc He Hu.
  rewrite (step_Timer_running u s Hrun).
  rewrite (tick_eat u s head rest Hs Hc He).
  eexists. split; [reflexivity|]. cbn [snake score speed food].
  do 5 (split; [reflexivity|]).
  destruct (freeCells (nextHeadOf s head :: snake s)) as [|c l] eqn:Hfree.
  - right. split; [apply spawnFood_fallback; exact Hfree|].
    intros c Hx Hy. apply (proj1 (freeCells_nil _) Hfree). split; assumption.
  - left.
    assert (Hne : freeCells (nextHeadOf s head :: snake s) <> [])
      by (rewrite Hfree; discriminate).
    destruct (spawnFood_avoids u _ Hu Hne) as [[Hx Hy] Hout].
    split; [exact Hx|]. split; [exact Hy|exact Hout].
Qed.

(** C6: in a running state, when the next head of the tick hits neither a
    wall nor the snake and is not the food cell, the tick puts the new head in
    front and drops the tail: the length of the snake, the food, the score and
    the speed stay as they were. *)
Theorem tick_moves_without_food
  (u : Q) (s : State) (head : Point) (rest : list Point) :
  status s = running ->
  snake s = head :: rest ->
  ~ collides s (nextHeadOf s head) ->
  nextHeadOf s head <> food s ->
  exists s', step (Timer u) s = Some s'
             /\ snake s' = nextHeadOf s head :: removelast (snake s)
             /\ List.length (snake s') = List.length (snake s)
             /\ food s' = food s
             /\ score s' = score s
             /\ speed s' = speed s.
Proof.
  intros Hrun Hs Hc He.
  rewrite (step_Timer_running u s Hrun).
  rewrite (tick_move u s head rest Hs Hc He).
  eexists. split; [reflexivity|]. cbn [snake score speed food].
  repeat split.
  - rewrite Hs. reflexivity.
  - apply removelast_cons_length.
Qed.

(** ** What the key handler and the restart leave alone *)

Lemma steer_sameGame (next : Point) (s : State) : sameGame s (steer next s).
Proof.
  unfold steer, sameGame.
  destruct (Status_eqb (status s) ready), (negb (Status_eqb (status s) running)),
    (isOpposite (effectiveDirection s) next); cbn; repeat split; reflexivity.
Qed.

Lemma handleKeyDown_cases (u : Q) (key : JSString) (s : State) :
  handleKeyDown u key s = resetGame u s \/ sameGame s (handleKeyDown u key s).
Proof.
  unfold handleKeyDown.
  destruct (strictEq key (js " ") && negb (Status_eqb (status s) running));
    [left; reflexivity|].
  right. destruct (DIRECTIONS key) as [next|].
  - apply steer_sameGame.
  - repeat split; reflexivity.
Qed.

(** Every event other than a timer tick restarts the game or leaves the
    game cells alone. *)
Lemma step_cases (e : Event) (s s' : State) :
  step e s = Some s' ->
  s' = resetGame (eventDraw e) s
  \/ sameGame s s'
  \/ (status s = running /\ tick (eventDraw e) s = Some s').
Proof.
  destruct e as [u|u key|u]; simpl; intros H.
  - destruct (Status_eqb (status s) running) eqn:E.
    + right. right. split; [destruct (status s); (discriminate || reflexivity)|exact H].
    + right. left. inversion H; subst. repeat split; reflexivity.
  - inversion H; subst.
    destruct (handleKeyDown_cases u key s) as [Hr|Hk]; [left; exact Hr|right; left; exact Hk].
  - destruct (Status_eqb (status s) over); inversion H; subst.
    + left. reflexivity.
    + right. left. repeat split; reflexivity.
Qed.

(** The three outcomes of a tick that returned. *)
Lemma tick_cases (u : Q) (s s' : State) :
  tick u s = Some s' ->
  exists head rest,
    snake s = head :: rest /\
    ((collides s (nextHeadOf s head)
      /\ snake s' = snake s /\ food s' = food s /\ score s' = score s)
     \/ (~ collides s (nextHeadOf s head) /\ nextHeadOf s head = food s
         /\ snake s' = nextHeadOf s head :: snake s
         /\ food s' = spawnFood u (nextHeadOf s head :: snake s)
         /\ score s' = score s + 1)
     \/ (~ collides s (nextHeadOf s head) /\ nextHeadOf s head <> food s
         /\ snake s' = removelast (nextHeadOf s head :: snake s)
         /\ food s' = food s /\ score s' = score s)).
Proof.
  intros H. destruct (snake s) as [|head rest] eqn:Hs.
  - unfold tick in H. rewrite Hs in H. discriminate.
  - exists head, rest. split; [reflexivity|].
    destruct (collides_decidable s (nextHeadOf s head)) as [Hc|Hc].
    + rewrite (tick_collision u s head rest Hs Hc) in H. inversion H; subst.
      left. cbn. rewrite Hs. repeat split. exact Hc.
    + destruct (Point_eq_dec (nextHeadOf s head) (food s)) as [He|He].
      * rewrite (tick_eat u s head rest Hs Hc He) in H. inversion H; subst.
        right. left. cbn. rewrite Hs. repeat split; assumption.
      * rewrite (tick_move u s head rest Hs Hc He) in H. inversion H; subst.
        right. right. cbn. rewrite Hs. repeat split; assumption.
Qed.

(** ** Invariants of the reachable states *)

Lemma initialSnake_NoDup : NoDup initialSnake.
Proof.
  unfold initialSnake.
  repeat constructor; simpl; intuition discriminate.
Qed.

Lemma wellFormed_fresh (s : State) :
  snake s = initialSnake -> score s = 0 -> wellFormed s.
Proof.
  intros Hs Hz. unfold wellFormed. rewrite Hs, Hz.
  split; [exact initialSnake_NoDup|]. split; [reflexivity|lia].
Qed.

Lemma wellFormed_sameGame (s s' : State) :
  sameGame s s' -> wellFormed s -> wellFormed s'.
Proof.
  intros (Hsn & _ & Hsc & _) Hw. unfold wellFormed in *. rewrite Hsn, Hsc. exact Hw.
Qed.

Lemma wellFormed_tick (u : Q) (s s' : State) :
  tick u s = Some s' -> wellFormed s -> wellFormed s'.
Proof.
  intros Ht (Hnd & Hlen & Hsc). unfold wellFormed.
  destruct (tick_cases u s s' Ht) as (head & rest & Hs & Hcase).
  destruct Hcase as [(Hc & Hsn & _ & Hscore)
                    |[(Hc & He & Hsn & _ & Hscore)|(Hc & He & Hsn & _ & Hscore)]];
    rewrite Hsn, Hscore.
  - repeat split; assumption.
  - assert (Hnin : ~ In (nextHeadOf s head) (snake s)).
    { intros Hin. apply Hc. right. exact Hin. }
    split; [constructor; assumption|].
    cbn [List.length]. split; lia.
  - assert (Hnin : ~ In (nextHeadOf s head) (snake s)).
    { intros Hin. apply Hc. right. exact Hin. }
    split; [apply removelast_NoDup; constructor; assumption|].
    rewrite removelast_cons_length. split; assumption.
Qed.

Lemma wellFormed_step (e : Event) (s s' : State) :
  step e s = Some s' -> wellFormed s -> wellFormed s'.
Proof.
  intros Hstep Hw.
  destruct (step_cases e s s' Hstep) as [Hr|[Hk|[_ Ht]]].
  - subst s'. apply wellFormed_fresh; reflexivity.
  - eapply wellFormed_sameGame; eassumption.
  - eapply wellFormed_tick; eassumption.
Qed.

Lemma reachable_wellFormed (s : State) : reachable s -> wellFormed s.
Proof.
  induction 1 as [u storedBest Hu|e s s' Hreach IH Hu Hstep].
  - apply wellFormed_fresh; unfold startup, loadBestScore;
      destruct (truthy storedBest), storedBest; reflexivity.
  - eapply wellFormed_step; eassumption.
Qed.

Lemma foodApart_spawn (u : Q) (s : State) :
  isRandom u -> food s = spawnFood u (snake s) -> foodApart s.
Proof.
  intros Hu Hf Hfree. rewrite Hf. apply spawnFood_avoids; assumption.
Qed.

Lemma foodApart_tick (u : Q) (s s' : State) :
  isRandom u -> tick u s = Some s' -> foodApart s -> foodApart s'.
Proof.
  intros Hu Ht Hfa.
  destruct (tick_cases u s s' Ht) as (head & rest & Hs & Hcase).
  destruct Hcase as [(Hc & Hsn & Hfd & _)
                    |[(Hc & He & Hsn & Hfd & _)|(Hc & He & Hsn & Hfd & _)]].
  - unfold foodApart. rewrite Hsn, Hfd. exact Hfa.
  - apply (foodApart_spawn u); [exact Hu|]. rewrite Hsn, Hfd. reflexivity.
  - unfold foodApart. rewrite Hsn, Hfd. intros _ Hin.
    assert (Hwall : hitWall (nextHeadOf s head) = false).
    { apply collides_dec in Hc. apply orb_false_iff in Hc. apply Hc. }
    assert (Hnin : ~ In (nextHeadOf s head) (snake s)).
    { intros Hin'. apply Hc. right. exact Hin'. }
    assert (Hfree : freeCells (snake s) <> []).
    { intros Hnil.
      apply Hnin. apply (proj1 (freeCells_nil (snake s)) Hnil).
      apply hitWall_false. exact Hwall. }
    apply removelast_incl in Hin. destruct Hin as [Heq|Hin].
    + apply He. exact Heq.
    + exact (Hfa Hfree Hin).
Qed.

Lemma foodApart_step (e : Event) (s s' : State) :
  isRandom (eventDraw e) -> step e s = Some s' -> foodApart s -> foodApart s'.
Proof.
  intros Hu Hstep Hfa.
  destruct (step_cases e s s' Hstep) as [Hr|[Hk|[_ Ht]]].
  - subst s'. apply (foodApart_spawn (eventDraw e)); [exact Hu|reflexivity].
  - destruct Hk as (Hsn & Hfd & _). unfold foodApart. rewrite Hsn, Hfd. exact Hfa.
  - eapply foodApart_tick; eassumption.
Qed.

Lemma reachable_foodApart (s : State) : reachable s -> foodApart s.
Proof.
  induction 1 as [u storedBest Hu|e s s' Hreach IH Hu Hstep].
  - apply (foodApart_spawn u); [exact Hu|].
    unfold startup, loadBestScore; destruct (truthy storedBest), storedBest; reflexivity.
  - eapply foodApart_step; eassumption.
Qed.

(** ** Runs are reachable *)

Lemma isRandomb_true (u : Q) : isRandomb u = true -> isRandom u.
Proof.
  unfold isRandomb, isRandom. intros H.
  apply andb_true_iff in H. destruct H as [H0 H1].
  split; [apply Qle_bool_iff; exact H0|].
  apply Qnot_le_lt. intros Hle. apply Qle_bool_iff in Hle.
  rewrite Hle in H1. discriminate.
Qed.

Lemma run_reachable (es : list Event) : forall s s',
  reachable s -> drawsOk es = true -> run es s = Some s' -> reachable s'.
Proof.
  induction es as [|e es IH]; intros s s' Hreach Hok Hrun; simpl in *.
  - inversion Hrun; subst. exact Hreach.
  - apply andb_true_iff in Hok. destruct Hok as [He Hes].
    destruct (step e s) as [s1|] eqn:Hstep; [|discriminate].
    apply (IH s1 s'); [|exact Hes|exact Hrun].
    eapply reach_step; [exact Hreach|apply isRandomb_true; exact He|exact Hstep].
Qed.

Lemma fillStart_reachable : reachable fillStart.
Proof.
  apply reach_startup. apply isRandomb_true. reflexivity.
Qed.

(** ** Food and snake *)

Lemma fullAndFed_sound (es : list Event) (start : State) :
  fullAndFed es start = true ->
  exists s, run es start = Some s
            /\ List.length (snake s) = 400%nat
            /\ freeCells (snake s) = []
            /\ food s = {| x := 0; y := 0 |}
            /\ In (food s) (snake s).
Proof.
  unfold fullAndFed. intros H.
  destruct (run es start) as [s|]; [|discriminate].
  repeat (apply andb_true_iff in H; let H' := fresh "H" in destruct H as [H H']).
  exists s. split; [reflexivity|].
  split; [apply Nat.eqb_eq; assumption|].
  split; [destruct (freeCells (snake s)); [reflexivity|discriminate]|].
  split; [apply Point_ext; simpl; apply Z.eqb_eq; assumption|].
  apply occupies_In. assumption.
Qed.

Lemma fill_checked : drawsOk fillTrace && fullAndFed fillTrace fillStart = true.
Proof. vm_compute. reflexivity. Qed.

(** C7, as stated, fails: the game [fillTrace] is a sequence of key and
    timer events from a freshly mounted component; it ends with the snake on
    all 400 cells, where [spawnFood] had no free cell left and returned
    (0, 0), a cell of the snake. *)
Lemma full_board_food_on_snake :
  exists s, run fillTrace fillStart = Some s
            /\ reachable s
            /\ List.length (snake s) = 400%nat
            /\ freeCells (snake s) = []
            /\ food s = {| x := 0; y := 0 |}
            /\ In (food s) (snake s).
Proof.
  pose proof fill_checked as H.
  apply andb_true_iff in H. destruct H as [Hok H].
  destruct (fullAndFed_sound fillTrace fillStart H)
    as (s & Hrun & Hlen & Hfree & Hfood & Hin).
  exists s. split; [exact Hrun|].
  split; [exact (run_reachable fillTrace fillStart s fillStart_reachable Hok Hrun)|].
  repeat split; assumption.
Qed.

(** C7, amended: in every reachable state where the snake leaves a cell of
    the board free, the food is on none of its segments.  For every draw,
    [spawnFood] returns a cell of the board outside the occupied cells when
    one is free; when none is free, the occupied cells covering the board, it
    returns (0, 0). *)
Theorem food_never_on_snake
  (s : State) (u : Q) (occupied filled : list Point) :
  reachable s ->
  freeCells (snake s) <> [] ->
  isRandom u ->
  freeCells occupied <> [] ->
  freeCells filled = [] ->
  ~ In (food s) (snake s)
  /\ onBoard (spawnFood u occupied)
  /\ ~ In (spawnFood u occupied) occupied
  /\ spawnFood u filled = {| x := 0; y := 0 |}
  /\ incl boardCells filled.
Proof.
  intros Hreach Hfree Hu Hocc Hfilled.
  split; [exact (reachable_foodApart s Hreach Hfree)|].
  split; [exact (proj1 (spawnFood_avoids u occupied Hu Hocc))|].
  split; [exact (proj2 (spawnFood_avoids u occupied Hu Hocc))|].
  split; [exact (spawnFood_fallback u filled Hfilled)|].
  intros c Hc. apply (proj1 (freeCells_nil filled) Hfilled).
  apply boardCells_In. exact Hc.
Qed.

(** ** Shape of the snake *)

Lemma step_length (e : Event) (s s' : State) :
  step e s = Some s' ->
  (List.length (snake s) <= List.length (snake s'))%nat
  \/ s' = resetGame (eventDraw e) s.
Proof.
  intros Hstep.
  destruct (step_cases e s s' Hstep) as [Hr|[Hk|[_ Ht]]].
  - right. exact Hr.
  - left. destruct Hk as [Hsn _]. rewrite Hsn. apply Nat.le_refl.
  - left. destruct (tick_cases (eventDraw e) s s' Ht) as (head & rest & Hs & Hcase).
    destruct Hcase as [(_ & Hsn & _)|[(_ & _ & Hsn & _)|(_ & _ & Hsn & _)]];
      rewrite Hsn.
    + apply Nat.le_refl.
    + cbn [List.length]. apply Nat.le_succ_diag_r.
    + rewrite removelast_cons_length. apply Nat.le_refl.
Qed.

(** C8: in every reachable state the segments of the snake are pairwise
    distinct and the snake has at least 3 segments: 3 plus the score, so
    exactly 3 until the first food is eaten and more after; an event that is
    not a restart never makes it shorter. *)
Theorem snake_distinct_and_long (s : State) (e : Event) (s' : State) :
  reachable s ->
  step e s = Some s' ->
  NoDup (snake s)
  /\ (3 <= List.length (snake s))%nat
  /\ Z.of_nat (List.length (snake s)) = 3 + score s
  /\ (if score s =? 0 then List.length (snake s) = 3%nat
      else (3 < List.length (snake s))%nat)
  /\ ((List.length (snake s) <= List.length (snake s'))%nat
      \/ s' = resetGame (eventDraw e) s).
Proof.
  intros Hreach Hstep.
  destruct (reachable_wellFormed s Hreach) as (Hnd & Hlen & Hsc).
  split; [exact Hnd|].
  split; [lia|].
  split; [exact Hlen|].
  split; [destruct (score s =? 0) eqn:E;
          [apply Z.eqb_eq in E|apply Z.eqb_neq in E]; lia|].
  exact (step_length e s s' Hstep).
Qed.

(** ** Direction input *)

Lemma strictEq_eq (a b : JSString) : strictEq a b = true <-> a = b.
Proof.
  revert b. induction a as [|c a IH]; intros [|d b]; simpl;
    try (split; [discriminate|discriminate]); [split; reflexivity|].
  rewrite andb_true_iff, N.eqb_eq, IH. split.
  - intros [-> ->]. reflexivity.
  - intros H. inversion H. split; reflexivity.
Qed.

Lemma DIRECTIONS_not_space (key : JSString) (next : Point) :
  DIRECTIONS key = Some next -> strictEq key (js " ") = false.
Proof.
  intros H. destruct (strictEq key (js " ")) eqn:E; [|reflexivity].
  apply strictEq_eq in E. subst key. discriminate.
Qed.

Lemma handleKeyDown_arrow (u : Q) (key : JSString) (next : Point) (s : State) :
  DIRECTIONS key = Some next -> handleKeyDown u key s = steer next s.
Proof.
  intros H. unfold handleKeyDown.
  rewrite (DIRECTIONS_not_space key next H), H. reflexivity.
Qed.

Lemma steer_running (next : Point) (s : State) :
  status s = running ->
  steer next s =
  if isOpposite (effectiveDirection s) next then s else setPending (Some next) s.
Proof. intros Hs. unfold steer. rewrite Hs. reflexivity. Qed.

(** No event writes another direction than right to the [direction] cell. *)
Lemma tick_direction (u : Q) (s s' : State) :
  tick u s = Some s' -> direction s' = direction s.
Proof.
  unfold tick. destruct (snake s) as [|head rest]; [discriminate|].
  destruct (hitWall _ || hitSelf _ _); [intros H; inversion H; reflexivity|].
  destruct (negb _); intros H; inversion H; reflexivity.
Qed.

Lemma reachable_direction (s : State) : reachable s -> direction s = ArrowRight.
Proof.
  induction 1 as [u storedBest Hu|e s s' Hreach IH Hu Hstep].
  - unfold startup, loadBestScore.
    destruct (truthy storedBest), storedBest; reflexivity.
  - destruct (step_cases e s s' Hstep) as [Hr|[Hk|[_ Ht]]].
    + subst s'. reflexivity.
    + destruct Hk as (_ & _ & _ & _ & Hd & _). rewrite Hd. exact IH.
    + rewrite (tick_direction _ s s' Ht). exact IH.
Qed.

(** C1, on the code: after two key presses on a freshly mounted component
    the game runs with down buffered.  The tick moves the head down and
    empties the buffer, and leaves [direction] at right: the next tick, with
    no key pressed in between, moves the head to the right. *)
Theorem pending_direction_not_promoted :
  exists s s1 s2,
    run [KeyDown 0 (js "ArrowRight"); KeyDown 0 (js "ArrowDown")]
        (startup 0 None) = Some s
    /\ status s = running
    /\ pendingDirection s = Some ArrowDown
    /\ snake s = initialSnake
    /\ step (Timer 0) s = Some s1
    /\ snake s1 = [ {| x := 10; y := 11 |}; {| x := 10; y := 10 |};
                    {| x := 9; y := 10 |} ]
    /\ pendingDirection s1 = None
    /\ direction s1 = ArrowRight
    /\ step (Timer 0) s1 = Some s2
    /\ snake s2 = [ {| x := 11; y := 11 |}; {| x := 10; y := 11 |};
                    {| x := 10; y := 10 |} ].
Proof.
  do 3 eexists.
  split; [vm_compute; reflexivity|].
  do 3 (split; [reflexivity|]).
  split; [vm_compute; reflexivity|].
  do 3 (split; [reflexivity|]).
  split; [vm_compute; reflexivity|].
  reflexivity.
Qed.

(** C2, on the code: on a freshly mounted component (status [ready],
    direction right, nothing buffered) the down arrow, which is not the
    opposite of right, starts the game and is not buffered. *)
Theorem first_arrow_key_is_dropped :
  status (startup 0 None) = ready
  /\ DIRECTIONS (js "ArrowDown") = Some ArrowDown
  /\ isOpposite (effectiveDirection (startup 0 None)) ArrowDown = false
  /\ status (handleKeyDown 0 (js "ArrowDown") (startup 0 None)) = running
  /\ pendingDirection (handleKeyDown 0 (js "ArrowDown") (startup 0 None)) = None.
Proof. repeat split. Qed.



(** ** The stored best score *)

Lemma digitValue_decimal (c : N) :
  isDecimalDigit c = true -> digitValue 10 c = Some (c - 48)%N.
Proof.
  unfold isDecimalDigit, digitValue. intros H. rewrite H.
  apply andb_true_iff in H. destruct H as [H1 H2].
  apply N.leb_le in H1. apply N.leb_le in H2.
  assert (Hlt : (c - 48 <? 10)%N = true) by (apply N.ltb_lt; lia).
  rewrite Hlt. reflexivity.
Qed.


Lemma spanDigits_decimal (digits : JSString) : forall acc n,
  forallb isDecimalDigit digits = true ->
  spanDigits 10 digits acc n =
  (fold_left (fun a c => (a * 10 + (c - 48))%N) digits acc,
   (n + List.length digits)%nat, []).
Proof.
  induction digits as [|c digits IH]; intros acc n H; simpl.
  - rewrite Nat.add_0_r. reflexivity.
  - simpl in H. apply andb_true_iff in H. destruct H as [Hc Hrest].
    rewrite (digitValue_decimal c Hc), (IH _ _ Hrest).
    rewrite Nat.add_succ_r. reflexivity.
Qed.

Lemma digit_not_white (c : N) :
  isDecimalDigit c = true -> isStrWhiteSpaceChar c = false.
Proof.
  unfold isDecimalDigit, isStrWhiteSpaceChar. intros H.
  apply andb_true_iff in H. destruct H as [H1 H2].
  apply N.leb_le in H1. apply N.leb_le in H2.
  cbn [existsb]. rewrite !orb_false_iff, andb_false_iff, !N.eqb_neq, N.leb_gt.
  repeat split; lia.
Qed.

Lemma dropWhite_keep (c : N) (rest : JSString) :
  isStrWhiteSpaceChar c = false -> dropWhite (c :: rest) = c :: rest.
Proof. intros H. simpl. rewrite H. reflexivity. Qed.




Lemma trim_digits (digits : JSString) :
  forallb isDecimalDigit digits = true -> trim digits = digits.
Proof.
  intros H. unfold trim.
  assert (Hkeep : forall l, forallb isDecimalDigit l = true -> dropWhite l = l).
  { intros [|c l] Hl; [reflexivity|]. simpl in Hl.
    apply andb_true_iff in Hl. destruct Hl as [Hc _].
    apply dropWhite_keep. apply digit_not_white. exact Hc. }
  rewrite (Hkeep digits H).
  rewrite Hkeep; [apply rev_involutive|].
  rewrite forallb_forall in *. intros c Hin. apply H. apply in_rev. exact Hin.
Qed.

Lemma nonDecimal_not_zero (c : N) (rest : JSString) :
  (c =? 48)%N = false -> nonDecimal (c :: rest) = None.
Proof.
  intros H. unfold nonDecimal. destruct rest as [|p r]; [reflexivity|].
  rewrite H. reflexivity.
Qed.

Lemma nonDecimal_digits (digits : JSString) :
  forallb isDecimalDigit digits = true -> nonDecimal digits = None.
Proof.
  intros H. destruct digits as [|z [|p r]]; [reflexivity|reflexivity|].
  simpl in H. apply andb_true_iff in H. destruct H as [_ H].
  apply andb_true_iff in H. destruct H as [Hp _].
  unfold isDecimalDigit in Hp. apply andb_true_iff in Hp.
  destruct Hp as [H1 H2]. apply N.leb_le in H1. apply N.leb_le in H2.
  unfold nonDecimal.
  destruct (negb (z =? 48)%N); [reflexivity|].
  assert (E : forall k, (57 < k)%N -> (p =? k)%N = false)
    by (intros k Hk; apply N.eqb_neq; lia).
  rewrite !E by lia. reflexivity.
Qed.

Lemma Qred_integer (a : Z) : Qred (inject_Z a) = inject_Z a.
Proof.
  unfold Qred, inject_Z.
  pose proof (Z.ggcd_correct_divisors a 1) as Hd.
  pose proof (Z.ggcd_gcd a 1) as Hg.
  destruct (Z.ggcd a 1) as (g, (aa, bb)). simpl in *.
  rewrite Z.gcd_1_r in Hg. subst g. destruct Hd as [Ha Hb].
  rewrite Z.mul_1_l in Ha, Hb. subst aa bb. reflexivity.
Qed.

Lemma dyadic_scaled (a k : Z) : k <= 0 -> dyadic (a * 2 ^ (- k)) k = inject_Z a.
Proof.
  intros Hk. unfold dyadic. destruct (0 <=? k) eqn:E.
  - apply Z.leb_le in E. assert (k = 0) by lia. subst k.
    change (2 ^ (- 0)) with 1. change (2 ^ 0) with 1.
    rewrite !Z.mul_1_r. reflexivity.
  - rewrite <- (Qred_integer a). apply Qred_complete.
    assert (Hp : 0 < 2 ^ (- k)) by (apply Z.pow_pos_nonneg; lia).
    unfold Qeq, inject_Z. cbn [Qnum Qden].
    rewrite Z2Pos.id by exact Hp. lia.
Qed.

Lemma roundHalfEven_1 (a : Z) : roundHalfEven a 1 = a.
Proof.
  unfold roundHalfEven. rewrite Z.mod_1_r, Z.div_1_r. reflexivity.
Qed.

Lemma exponentOf_integer (v : Z) : 0 < v -> exponentOf v 1 = Z.log2 v.
Proof.
  intros Hv. unfold exponentOf. change (Z.log2 1) with 0. rewrite Z.sub_0_r.
  pose proof (Z.log2_nonneg v) as Hn.
  pose proof (Z.log2_spec v Hv) as [Hlo _].
  assert (E1 : (0 <=? Z.log2 v) = true) by (apply Z.leb_le; exact Hn).
  assert (E2 : (1 * 2 ^ Z.log2 v <=? v) = true)
    by (apply Z.leb_le; rewrite Z.mul_1_l; exact Hlo).
  rewrite E1, E2. reflexivity.
Qed.

(** An integer from 0 to 2^53 is its own Number value. *)
Lemma binary64_integer (v : Z) :
  0 <= v <= 2 ^ 53 -> binary64 (inject_Z v) = Num (inject_Z v).
Proof.
  intros [H0 H53]. unfold binary64, inject_Z. cbn [Qnum Qden].
  destruct (v =? 0) eqn:Ez; [apply Z.eqb_eq in Ez; subst v; reflexivity|].
  apply Z.eqb_neq in Ez. assert (Hv : 0 < v) by lia.
  assert (El : (v <? 0) = false) by (apply Z.ltb_ge; exact H0).
  rewrite El. unfold binary64Pos. rewrite (exponentOf_integer v Hv).
  pose proof (Z.log2_nonneg v) as Hn.
  assert (Hle : Z.log2 v <= 53).
  { change 53 with (Z.log2 (2 ^ 53)). apply Z.log2_le_mono. exact H53. }
  rewrite Z.max_l by lia.
  destruct (Z.eq_dec (Z.log2 v) 53) as [E53|N53].
  - pose proof (Z.log2_spec v Hv) as [Hlo _]. rewrite E53 in Hlo.
    assert (v = 2 ^ 53) by lia. subst v. vm_compute. reflexivity.
  - set (k := Z.log2 v - 52). assert (Hk : k <= 0) by (unfold k; lia).
    destruct (0 <=? k) eqn:Ek.
    + apply Z.leb_le in Ek. assert (E0 : k = 0) by lia. rewrite E0.
      change (2 ^ 0) with 1. rewrite !Z.mul_1_r, roundHalfEven_1.
      assert (Eo : (2 ^ 1024 <=? v) = false).
      { apply Z.leb_gt. eapply Z.le_lt_trans; [exact H53|]. reflexivity. }
      rewrite Eo. cbn [andb]. unfold dyadic. cbn [Z.leb Z.compare].
      change (2 ^ 0) with 1. rewrite Z.mul_1_r. reflexivity.
    + cbn [andb]. rewrite roundHalfEven_1.
      exact (f_equal Num (dyadic_scaled v k Hk)).
Qed.

Lemma StringToNumber_digits (digits : JSString) :
  digits <> [] ->
  forallb isDecimalDigit digits = true ->
  (decimalValue digits <= 2 ^ 53)%N ->
  StringToNumber digits = ofZ (Z.of_N (decimalValue digits)).
Proof.
  intros Hne Hd Hle. unfold StringToNumber.
  rewrite (trim_digits digits Hd).
  destruct digits as [|c rest]; [congruence|].
  rewrite (nonDecimal_digits (c :: rest) Hd).
  assert (Hc : isDecimalDigit c = true).
  { simpl in Hd. apply andb_true_iff in Hd. apply Hd. }
  unfold isDecimalDigit in Hc. apply andb_true_iff in Hc.
  destruct Hc as [H1 H2]. apply N.leb_le in H1. apply N.leb_le in H2.
  assert (E43 : (c =? 43)%N = false) by (apply N.eqb_neq; lia).
  assert (E45 : (c =? 45)%N = false) by (apply N.eqb_neq; lia).
  rewrite E43, E45. unfold unsignedDecimal.
  assert (EI : strictEq (c :: rest) (js "Infinity") = false).
  { cbn. assert (E73 : (c =? 73)%N = false) by (apply N.eqb_neq; lia).
    rewrite E73. reflexivity. }
  rewrite EI, (spanDigits_decimal (c :: rest) 0%N 0%nat Hd).
  cbn [List.length Nat.add]. unfold scale10, ofZ.
  cbn [Z.leb Z.compare Z.pow Z.pow_pos Pos.iter].
  rewrite Z.mul_1_r. apply binary64_integer.
  split; [apply N2Z.is_nonneg|].
  change (2 ^ 53) with (Z.of_N (2 ^ 53)). apply N2Z.inj_le. exact Hle.
Qed.




(** ** The statements at sample states *)

Lemma tick_self_collision_chasingTail :
  (status chasingTail = running
   /\ snake chasingTail
      = {| x := 5; y := 5 |}
        :: [ {| x := 6; y := 5 |}; {| x := 6; y := 6 |}; {| x := 5; y := 6 |} ]
   /\ In {| x := 5; y := 6 |} (snake chasingTail)
   /\ nextHeadOf chasingTail {| x := 5; y := 5 |} = {| x := 5; y := 6 |})
  /\ (hitSelf (snake chasingTail) (nextHeadOf chasingTail {| x := 5; y := 5 |})
      = true
      /\ In (last (snake chasingTail) {| x := 5; y := 5 |}) (snake chasingTail)
      /\ exists s', step (Timer 0) chasingTail = Some s'
                    /\ status s' = over /\ snake s' = snake chasingTail).
Proof.
  assert (Hin : In {| x := 5; y := 6 |} (snake chasingTail)).
  { right. right. right. left. reflexivity. }
  split.
  - split; [reflexivity|]. split; [reflexivity|]. split; [exact Hin|reflexivity].
  - exact (tick_self_collision 0 chasingTail {| x := 5; y := 5 |} _
             {| x := 5; y := 6 |} eq_refl eq_refl Hin eq_refl).
Defined.

Lemma tick_collision_game_over_atRightWall :
  (status atRightWall = running
   /\ snake atRightWall
      = {| x := 19; y := 5 |} :: [ {| x := 18; y := 5 |}; {| x := 17; y := 5 |} ]
   /\ x (nextHeadOf atRightWall {| x := 19; y := 5 |}) >= 20)
  /\ exists s', step (Timer 0) atRightWall = Some s'
                /\ status s' = over
                /\ bestScore s' = Math_max (bestScore atRightWall)
                                           (ofZ (score atRightWall))
                /\ (forall b, bestScore atRightWall = ofZ b ->
                              bestScore s' = ofZ (Z.max b (score atRightWall)))
                /\ snake s' = snake atRightWall.
Proof.
  assert (Hx : x (nextHeadOf atRightWall {| x := 19; y := 5 |}) >= 20).
  { simpl. discriminate. }
  split.
  - split; [reflexivity|]. split; [reflexivity|exact Hx].
  - apply (tick_collision_game_over 0 atRightWall {| x := 19; y := 5 |} _
             eq_refl eq_refl).
    left. right. left. exact Hx.
Defined.

Lemma isRandom_0 : isRandom 0.
Proof. split; [discriminate|reflexivity]. Defined.

Lemma tick_eats_food_aboutToEat :
  (status aboutToEat = running
   /\ snake aboutToEat
      = {| x := 10; y := 10 |} :: [ {| x := 9; y := 10 |}; {| x := 8; y := 10 |} ]
   /\ ~ collides aboutToEat (nextHeadOf aboutToEat {| x := 10; y := 10 |})
   /\ nextHeadOf aboutToEat {| x := 10; y := 10 |} = food aboutToEat
   /\ isRandom 0)
  /\ exists s', step (Timer 0) aboutToEat = Some s'
                /\ snake s' = nextHeadOf aboutToEat {| x := 10; y := 10 |}
                              :: snake aboutToEat
                /\ List.length (snake s') = S (List.length (snake aboutToEat))
                /\ score s' = score aboutToEat + 1
                /\ speed s' = Z.max 60 (speed aboutToEat - 5)
                /\ food s' = spawnFood 0 (snake s')
                /\ ((0 <= x (food s') < 20 /\ 0 <= y (food s') < 20
                     /\ ~ In (food s') (snake s'))
                    \/ (food s' = {| x := 0; y := 0 |}
                        /\ forall c, 0 <= x c < 20 -> 0 <= y c < 20 ->
                                     In c (snake s'))).
Proof.
  assert (Hc : ~ collides aboutToEat (nextHeadOf aboutToEat {| x := 10; y := 10 |})).
  { apply collides_dec. reflexivity. }
  split.
  - split; [reflexivity|]. split; [reflexivity|]. split; [exact Hc|].
    split; [reflexivity|exact isRandom_0].
  - exact (tick_eats_food 0 aboutToEat {| x := 10; y := 10 |} _
             eq_refl eq_refl Hc eq_refl isRandom_0).
Defined.

Lemma tick_moves_without_food_cruising :
  (status cruising = running
   /\ snake cruising
      = {| x := 10; y := 10 |} :: [ {| x := 9; y := 10 |}; {| x := 8; y := 10 |} ]
   /\ ~ collides cruising (nextHeadOf cruising {| x := 10; y := 10 |})
   /\ nextHeadOf cruising {| x := 10; y := 10 |} <> food cruising)
  /\ exists s', step (Timer 0) cruising = Some s'
                /\ snake s' = nextHeadOf cruising {| x := 10; y := 10 |}
                              :: removelast (snake cruising)
                /\ List.length (snake s') = List.length (snake cruising)
                /\ food s' = food cruising
                /\ score s' = score cruising
                /\ speed s' = speed cruising.
Proof.
  assert (Hc : ~ collides cruising (nextHeadOf cruising {| x := 10; y := 10 |})).
  { apply collides_dec. reflexivity. }
  assert (Hf : nextHeadOf cruising {| x := 10; y := 10 |} <> food cruising).
  { discriminate. }
  split.
  - split; [reflexivity|]. split; [reflexivity|]. split; [exact Hc|exact Hf].
  - exact (tick_moves_without_food 0 cruising {| x := 10; y := 10 |} _
             eq_refl eq_refl Hc Hf).
Defined.

Lemma food_never_on_snake_startup :
  (reachable (startup 0 None)
   /\ freeCells (snake (startup 0 None)) <> []
   /\ isRandom 0
   /\ freeCells initialSnake <> []
   /\ freeCells boardCells = [])
  /\ (~ In (food (startup 0 None)) (snake (startup 0 None))
      /\ onBoard (spawnFood 0 initialSnake)
      /\ ~ In (spawnFood 0 initialSnake) initialSnake
      /\ spawnFood 0 boardCells = {| x := 0; y := 0 |}
      /\ incl boardCells boardCells).
Proof.
  assert (Hreach : reachable (startup 0 None)).
  { apply reach_startup. exact isRandom_0. }
  assert (Hfree : freeCells initialSnake <> []).
  { vm_compute. discriminate. }
  assert (Hfull : freeCells boardCells = []).
  { vm_compute. reflexivity. }
  split.
  - split; [exact Hreach|]. split; [exact Hfree|]. split; [exact isRandom_0|].
    split; [exact Hfree|exact Hfull].
  - exact (food_never_on_snake (startup 0 None) 0 initialSnake boardCells
             Hreach Hfree isRandom_0 Hfree Hfull).
Defined.

Lemma snake_distinct_and_long_startup :
  (reachable (startup 0 None)
   /\ step (KeyDown 0 (js "ArrowUp")) (startup 0 None)
      = Some (setStatus running (startup 0 None)))
  /\ (NoDup (snake (startup 0 None))
      /\ (3 <= List.length (snake (startup 0 None)))%nat
      /\ Z.of_nat (List.length (snake (startup 0 None)))
         = 3 + score (startup 0 None)
      /\ (if score (startup 0 None) =? 0
          then List.length (snake (startup 0 None)) = 3%nat
          else (3 < List.length (snake (startup 0 None)))%nat)
      /\ ((List.length (snake (startup 0 None))
           <= List.length (snake (setStatus running (startup 0 None))))%nat
          \/ setStatus running (startup 0 None)
             = resetGame (eventDraw (KeyDown 0 (js "ArrowUp"))) (startup 0 None))).
Proof.
  assert (Hreach : reachable (startup 0 None)).
  { apply reach_startup. exact isRandom_0. }
  split.
  - split; [exact Hreach|reflexivity].
  - exact (snake_distinct_and_long (startup 0 None) (KeyDown 0 (js "ArrowUp")) _
             Hreach eq_refl).
Defined.



(** ** Board bounds, shape of the snake and speed *)

Lemma spawnFood_onBoard (u : Q) (occupied : list Point) :
  onBoard (spawnFood u occupied).
Proof.
  unfold spawnFood.
  destruct (freeCells occupied) as [|c l] eqn:Hf.
  - unfold onBoard, BOARD_SIZE. simpl. lia.
  - destruct (nth_in_or_default (randomIndex u (List.length (c :: l))) (c :: l)
                                {| x := 0; y := 0 |}) as [Hin|Hd].
    + assert (Hfree : In (nth (randomIndex u (List.length (c :: l))) (c :: l)
                              {| x := 0; y := 0 |}) (freeCells occupied))
        by (rewrite Hf; exact Hin).
      apply freeCells_In in Hfree. apply Hfree.
    + rewrite Hd. unfold onBoard, BOARD_SIZE. simpl. lia.
Qed.

Lemma initialSnake_onBoard : Forall onBoard initialSnake.
Proof.
  unfold initialSnake, onBoard, BOARD_SIZE.
  repeat constructor; simpl; lia.
Qed.

Lemma Forall_removelast (A : Type) (P : A -> Prop) (l : list A) :
  Forall P l -> Forall P (removelast l).
Proof.
  intros H. apply Forall_forall. intros a Hin.
  apply removelast_incl in Hin. revert a Hin. apply Forall_forall. exact H.
Qed.

Lemma inBounds_tick (u : Q) (s s' : State) :
  tick u s = Some s' -> inBounds s -> inBounds s'.
Proof.
  intros Ht [Hsn Hfd]. unfold inBounds.
  destruct (tick_cases u s s' Ht) as (head & rest & Hs & Hcase).
  assert (Hnext : ~ collides s (nextHeadOf s head) ->
                  Forall onBoard (nextHeadOf s head :: snake s)).
  { intros Hc. constructor; [|exact Hsn].
    apply hitWall_false. apply collides_dec in Hc.
    apply orb_false_iff in Hc. apply Hc. }
  destruct Hcase as [(Hc & Hs' & Hf' & _)
                    |[(Hc & He & Hs' & Hf' & _)|(Hc & He & Hs' & Hf' & _)]];
    rewrite Hs', Hf'.
  - split; assumption.
  - split; [exact (Hnext Hc)|apply spawnFood_onBoard].
  - split; [apply Forall_removelast; exact (Hnext Hc)|exact Hfd].
Qed.

Lemma inBounds_fresh (u : Q) (s : State) :
  snake s = initialSnake -> food s = spawnFood u initialSnake -> inBounds s.
Proof.
  intros Hs Hf. unfold inBounds. rewrite Hs, Hf.
  split; [exact initialSnake_onBoard|apply spawnFood_onBoard].
Qed.

Lemma reachable_inBounds (s : State) : reachable s -> inBounds s.
Proof.
  induction 1 as [u storedBest Hu|e s s' Hreach IH Hu Hstep].
  - apply (inBounds_fresh u);
      unfold startup, loadBestScore;
      destruct (truthy storedBest), storedBest; reflexivity.
  - destruct (step_cases e s s' Hstep) as [Hr|[Hk|[_ Ht]]].
    + subst s'. apply (inBounds_fresh (eventDraw e)); reflexivity.
    + destruct Hk as (Hsn & Hfd & _). unfold inBounds. rewrite Hsn, Hfd. exact IH.
    + eapply inBounds_tick; eassumption.
Qed.

Lemma boardCells_length : List.length boardCells = 400%nat.
Proof. reflexivity. Qed.

Lemma reachable_length_le (s : State) :
  reachable s -> (List.length (snake s) <= 400)%nat.
Proof.
  intros Hreach.
  destruct (reachable_inBounds s Hreach) as [Hsn _].
  destruct (reachable_wellFormed s Hreach) as (Hnd & _).
  rewrite <- boardCells_length. apply NoDup_incl_length; [exact Hnd|].
  intros c Hin. apply boardCells_In.
  exact (proj1 (Forall_forall _ (snake s)) Hsn c Hin).
Qed.

(** X1: in every reachable state every segment of the snake and the food
    are cells of the board, so the snake has at most 400 segments and the
    score is at most 397. *)
Theorem snake_and_food_on_board (s : State) :
  reachable s ->
  Forall onBoard (snake s)
  /\ onBoard (food s)
  /\ (List.length (snake s) <= 400)%nat
  /\ 0 <= score s <= 397.
Proof.
  intros Hreach.
  destruct (reachable_inBounds s Hreach) as [Hsn Hfd].
  destruct (reachable_wellFormed s Hreach) as (Hnd & Hlen & Hsc).
  pose proof (reachable_length_le s Hreach) as Hle.
  split; [exact Hsn|]. split; [exact Hfd|]. split; [exact Hle|]. lia.
Qed.

Lemma DIRECTIONS_unit (key : JSString) (d : Point) :
  DIRECTIONS key = Some d -> unitVector d.
Proof.
  unfold DIRECTIONS.
  destruct (strictEq key (js "ArrowUp"));
    [intros H; inversion H; reflexivity|].
  destruct (strictEq key (js "ArrowDown"));
    [intros H; inversion H; reflexivity|].
  destruct (strictEq key (js "ArrowLeft"));
    [intros H; inversion H; reflexivity|].
  destruct (strictEq key (js "ArrowRight"));
    [intros H; inversion H; reflexivity|discriminate].
Qed.

Lemma chain_removelast (l : list Point) : chain l -> chain (removelast l).
Proof.
  induction l as [|a l IH]; [trivial|].
  destruct l as [|b l]; [trivial|].
  intros [Hab Hc]. rewrite removelast_cons_nonempty.
  destruct l as [|c l]; [exact I|].
  rewrite removelast_cons_nonempty in *. split; [exact Hab|].
  apply IH. exact Hc.
Qed.

Lemma initialSnake_chain : chain initialSnake.
Proof. repeat split. Qed.

Lemma steady_tick (u : Q) (s s' : State) :
  direction s = ArrowRight ->
  tick u s = Some s' -> steady s -> steady s'.
Proof.
  intros Hdir Ht [Hch Hp].
  assert (Hpend : pendingDirection s' = None).
  { revert Ht. unfold tick. destruct (snake s) as [|head rest]; [discriminate|].
    destruct (hitWall _ || hitSelf _ _); [intros H; inversion H; reflexivity|].
    destruct (negb _); intros H; inversion H; reflexivity. }
  split; [|intros d Hd; rewrite Hpend in Hd; discriminate].
  destruct (tick_cases u s s' Ht) as (head & rest & Hs & Hcase).
  assert (Hunit : unitVector (effectiveDirection s)).
  { unfold effectiveDirection. destruct (pendingDirection s) as [d|] eqn:E.
    - apply Hp. reflexivity.
    - rewrite Hdir. reflexivity. }
  assert (Hnext : chain (nextHeadOf s head :: snake s)).
  { rewrite Hs. split; [|rewrite <- Hs; exact Hch].
    unfold adjacent, nextHeadOf, add. cbn [x y]. unfold unitVector in Hunit. lia. }
  destruct Hcase as [(_ & Hs' & _)|[(_ & _ & Hs' & _)|(_ & _ & Hs' & _)]];
    rewrite Hs'.
  - exact Hch.
  - exact Hnext.
  - apply chain_removelast. exact Hnext.
Qed.

Lemma steady_steer (next : Point) (s : State) :
  unitVector next -> steady s -> steady (steer next s).
Proof.
  intros Hn [Hch Hp]. unfold steer, steady.
  destruct (Status_eqb (status s) ready), (negb (Status_eqb (status s) running)),
    (isOpposite (effectiveDirection s) next); cbn;
    (split; [exact Hch|]); try exact Hp;
    intros d Hd; inversion Hd; subst; exact Hn.
Qed.

Lemma steady_fresh (s : State) :
  snake s = initialSnake -> pendingDirection s = None -> steady s.
Proof.
  intros Hs Hp. unfold steady. rewrite Hs, Hp.
  split; [exact initialSnake_chain|discriminate].
Qed.

Lemma reachable_steady (s : State) : reachable s -> steady s.
Proof.
  induction 1 as [u storedBest Hu|e s s' Hreach IH Hu Hstep].
  - apply steady_fresh; unfold startup, loadBestScore;
      destruct (truthy storedBest), storedBest; reflexivity.
  - pose proof (reachable_direction s Hreach) as Hdir.
    destruct e as [u|u key|u]; simpl in Hstep.
    + destruct (Status_eqb (status s) running).
      * eapply steady_tick; eassumption.
      * inversion Hstep; subst. exact IH.
    + inversion Hstep; subst. unfold handleKeyDown.
      destruct (strictEq key (js " ") && negb (Status_eqb (status s) running));
        [apply steady_fresh; reflexivity|].
      destruct (DIRECTIONS key) as [next|] eqn:Hk; [|exact IH].
      apply steady_steer; [exact (DIRECTIONS_unit key next Hk)|exact IH].
    + destruct (Status_eqb (status s) over); inversion Hstep; subst;
        [apply steady_fresh; reflexivity|exact IH].
Qed.

(** X2: in every reachable state each segment of the snake is one cell away,
    along one axis, from the segment that follows it; the direction cell is
    right and a buffered direction is one of the four steps of one cell. *)
Theorem snake_is_a_chain (s : State) :
  reachable s ->
  chain (snake s)
  /\ direction s = ArrowRight
  /\ unitVector (effectiveDirection s).
Proof.
  intros Hreach.
  destruct (reachable_steady s Hreach) as [Hch Hp].
  pose proof (reachable_direction s Hreach) as Hdir.
  split; [exact Hch|]. split; [exact Hdir|].
  unfold effectiveDirection. destruct (pendingDirection s) as [d|] eqn:E.
  - apply Hp. reflexivity.
  - rewrite Hdir. reflexivity.
Qed.

Lemma speed_tick (u : Q) (s s' : State) :
  tick u s = Some s' ->
  speed s = Z.max 60 (INITIAL_SPEED - 5 * score s) ->
  speed s' = Z.max 60 (INITIAL_SPEED - 5 * score s').
Proof.
  unfold tick, INITIAL_SPEED. destruct (snake s) as [|head rest]; [discriminate|].
  destruct (hitWall _ || hitSelf _ _);
    [intros H Hsp; inversion H; subst; simpl; exact Hsp|].
  destruct (negb _); intros H Hsp; inversion H; subst; cbn [speed score]; lia.
Qed.

Lemma reachable_speed (s : State) :
  reachable s -> speed s = Z.max 60 (INITIAL_SPEED - 5 * score s).
Proof.
  induction 1 as [u storedBest Hu|e s s' Hreach IH Hu Hstep].
  - unfold startup, loadBestScore;
      destruct (truthy storedBest), storedBest; reflexivity.
  - destruct (step_cases e s s' Hstep) as [Hr|[Hk|[_ Ht]]].
    + subst s'. reflexivity.
    + destruct Hk as (_ & _ & Hsc & Hsp & _). rewrite Hsc, Hsp. exact IH.
    + eapply speed_tick; eassumption.
Qed.

(** X3: in every reachable state the speed interval is fixed by the score:
    160 minus 5 per food eaten, and 60 from the twentieth food on; it lies
    between 60 and 160. *)
Theorem speed_follows_score (s : State) :
  reachable s ->
  speed s = Z.max 60 (160 - 5 * score s)
  /\ 60 <= speed s <= 160
  /\ (20 <= score s -> speed s = 60).
Proof.
  intros Hreach.
  pose proof (reachable_speed s Hreach) as Hsp. unfold INITIAL_SPEED in Hsp.
  destruct (reachable_wellFormed s Hreach) as (_ & _ & Hsc).
  split; [exact Hsp|]. split; lia.
Qed.

(** ** Status, keys and best score *)

Lemma tick_outcome (u : Q) (s s' : State) :
  tick u s = Some s' ->
  (status s' = over /\ snake s' = snake s /\ score s' = score s
   /\ bestScore s' = Math_max (bestScore s) (ofZ (score s)))
  \/ (status s' = status s /\ bestScore s' = bestScore s).
Proof.
  unfold tick. destruct (snake s) as [|head rest]; [discriminate|].
  destruct (hitWall _ || hitSelf _ _);
    [intros H; inversion H; subst; left; repeat split|].
  destruct (negb _); intros H; inversion H; subst; right; split; reflexivity.
Qed.

Lemma steer_outcome (next : Point) (s : State) :
  match status s with
  | ready => steer next s = setStatus running s
  | running => steer next s = s \/ steer next s = setPending (Some next) s
  | over => steer next s = s
  end.
Proof.
  unfold steer. destruct (status s); cbn; try reflexivity.
  destruct (isOpposite (effectiveDirection s) next); [left|right]; reflexivity.
Qed.

(** X4: the status changes along ready to running, running to over and over
    to running only.  An event leaves a [ready] state as it is or starts the
    game; a game over comes from a timer tick and keeps the snake; an [over]
    state is left as it is by every event but a restart, which leads to the
    state built by [resetGame]. *)
Theorem status_transitions (e : Event) (s s' : State) :
  step e s = Some s' ->
  match status s, status s' with
  | ready, ready => s' = s
  | ready, running =>
      s' = setStatus running s \/ s' = resetGame (eventDraw e) s
  | running, running => True
  | running, over => e = Timer (eventDraw e) /\ snake s' = snake s
  | over, over => s' = s
  | over, running => s' = resetGame (eventDraw e) s
  | ready, over | running, ready | over, ready => False
  end.
Proof.
  destruct e as [u|u key|u]; simpl; intros H.
  - destruct (status s) eqn:Hs; cbn in H.
    + inversion H; subst. rewrite Hs. reflexivity.
    + destruct (tick_outcome u s s' H) as [(Ho & Hsn & _)|[Hst _]].
      * rewrite Ho. split; [reflexivity|exact Hsn].
      * rewrite Hst, Hs. exact I.
    + inversion H; subst. rewrite Hs. reflexivity.
  - inversion H; subst. unfold handleKeyDown.
    destruct (status s) eqn:Hs; cbn [Status_eqb negb andb].
    + destruct (strictEq key (js " ")); cbn [andb]; [right; reflexivity|].
      destruct (DIRECTIONS key) as [next|]; [|rewrite Hs; reflexivity].
      pose proof (steer_outcome next s) as Ho. rewrite Hs in Ho.
      rewrite Ho. left. reflexivity.
    + rewrite andb_false_r.
      destruct (DIRECTIONS key) as [next|]; [|rewrite Hs; exact I].
      pose proof (steer_outcome next s) as Ho. rewrite Hs in Ho.
      destruct Ho as [Ho|Ho]; rewrite Ho; cbn; rewrite ?Hs; exact I.
    + destruct (strictEq key (js " ")); cbn [andb]; [reflexivity|].
      destruct (DIRECTIONS key) as [next|]; [|rewrite Hs; reflexivity].
      pose proof (steer_outcome next s) as Ho. rewrite Hs in Ho.
      rewrite Ho, Hs. reflexivity.
  - destruct (status s) eqn:Hs; cbn in H; inversion H; subst;
      rewrite ?Hs; reflexivity.
Qed.

Lemma step_bestScore (e : Event) (s s' : State) :
  step e s = Some s' ->
  bestScore s' = bestScore s
  \/ (status s = running /\ status s' = over /\ score s' = score s
      /\ bestScore s' = Math_max (bestScore s) (ofZ (score s))).
Proof.
  intros Hstep.
  destruct (step_cases e s s' Hstep) as [Hr|[Hk|[Hrun Ht]]].
  - subst s'. left. reflexivity.
  - left. apply Hk.
  - destruct (tick_outcome _ s s' Ht) as [(Ho & _ & Hsc & Hb)|[_ Hb]].
    + right. repeat split; assumption.
    + left. exact Hb.
Qed.

Lemma Math_max_NaN (v : Number) : Math_max NaN v = NaN.
Proof. reflexivity. Qed.

(** X5: a best score that is NaN stays NaN through every run of events:
    [Math.max] of NaN and a score is NaN. *)
Theorem NaN_best_score_is_kept (es : list Event) (s s' : State) :
  run es s = Some s' ->
  bestScore s = NaN ->
  bestScore s' = NaN.
Proof.
  revert s. induction es as [|e es IH]; intros s Hrun Hnan; simpl in Hrun.
  - inversion Hrun; subst. exact Hnan.
  - destruct (step e s) as [s1|] eqn:Hstep; [|discriminate].
    apply (IH s1 Hrun).
    destruct (step_bestScore e s s1 Hstep) as [Hb|(_ & _ & _ & Hb)];
      rewrite Hb, ?Hnan; reflexivity.
Qed.

(** X6: through every run of events an integer best score stays an integer
    and never decreases; a step changes it only when a tick ends the game, to
    the larger of best score and score. *)
Theorem best_score_never_decreases (es : list Event) (s s' : State) (b : Z) :
  run es s = Some s' ->
  bestScore s = ofZ b ->
  exists b', bestScore s' = ofZ b' /\ b <= b'.
Proof.
  revert s b. induction es as [|e es IH]; intros s b Hrun Hb; simpl in Hrun.
  - inversion Hrun; subst. exists b. split; [exact Hb|lia].
  - destruct (step e s) as [s1|] eqn:Hstep; [|discriminate].
    destruct (step_bestScore e s s1 Hstep) as [H1|(_ & _ & _ & H1)].
    + apply (IH s1 b Hrun). rewrite H1. exact Hb.
    + rewrite Hb, Math_max_ofZ in H1.
      destruct (IH s1 _ Hrun H1) as (b' & Hb' & Hle).
      exists b'. split; [exact Hb'|lia].
Qed.

Lemma ofZ_inj (a b : Z) : ofZ a = ofZ b -> a = b.
Proof. unfold ofZ, inject_Z. intros H. inversion H. reflexivity. Qed.

Lemma Math_max_above (v : Number) (c b : Z) :
  Math_max v (ofZ c) = ofZ b -> c <= b.
Proof.
  destruct v as [| |p|]; simpl; try discriminate.
  - intros H. apply ofZ_inj in H. lia.
  - destruct (Qle_bool p (inject_Z c)) eqn:E.
    + intros H. apply ofZ_inj in H. lia.
    + intros H. inversion H; subst.
      destruct (Z_le_gt_dec c b) as [Hle|Hgt]; [exact Hle|exfalso].
      assert (Hq : (inject_Z b <= inject_Z c)%Q) by (rewrite <- Zle_Qle; lia).
      apply Qle_bool_iff in Hq. congruence.
Qed.

Lemma handleKeyDown_status (u : Q) (key : JSString) (s : State) :
  status (handleKeyDown u key s) = running
  \/ handleKeyDown u key s = s.
Proof.
  unfold handleKeyDown.
  destruct (strictEq key (js " ") && negb (Status_eqb (status s) running));
    [left; reflexivity|].
  destruct (DIRECTIONS key) as [next|]; [|right; reflexivity].
  pose proof (steer_outcome next s) as Ho.
  destruct (status s) eqn:Hs.
  - left. rewrite Ho. reflexivity.
  - destruct Ho as [Ho|Ho]; [right; exact Ho|left; rewrite Ho; exact Hs].
  - right. exact Ho.
Qed.

(** How a step reaches status [over]. *)
Lemma step_into_over (e : Event) (s s' : State) :
  step e s = Some s' ->
  status s' = over ->
  (status s = over /\ s' = s)
  \/ (status s = running /\ score s' = score s
      /\ bestScore s' = Math_max (bestScore s) (ofZ (score s))).
Proof.
  destruct e as [u|u key|u]; simpl; intros H Ho.
  - destruct (status s) eqn:Hs; cbn in H.
    + inversion H; subst. congruence.
    + right. destruct (tick_outcome u s s' H) as [(_ & _ & Hsc & Hb)|[Hst _]];
        [repeat split; assumption|congruence].
    + inversion H; subst. left. split; reflexivity.
  - inversion H; subst.
    destruct (handleKeyDown_status u key s) as [Hr|Hsame]; [congruence|].
    rewrite Hsame in *. left. split; [exact Ho|reflexivity].
  - destruct (status s) eqn:Hs; cbn in H; inversion H; subst;
      try discriminate Ho; congruence.
Qed.

(** X7: in every reachable state whose status is [over], an integer best
    score is at least the score of the game that ended. *)
Theorem best_score_covers_final_score (s : State) (b : Z) :
  reachable s ->
  status s = over ->
  bestScore s = ofZ b ->
  score s <= b.
Proof.
  intros Hreach. revert b.
  induction Hreach as [u storedBest Hu|e s s' Hreach IH Hu Hstep];
    intros b Hover.
  - exfalso. revert Hover. unfold startup, loadBestScore.
    destruct (truthy storedBest), storedBest; discriminate.
  - destruct (step_into_over e s s' Hstep Hover)
      as [[Hs ->]|(Hs & Hsc & Hb)]; [exact (IH b Hs)|].
    intros Hbb. rewrite Hb in Hbb. rewrite Hsc.
    exact (Math_max_above _ _ _ Hbb).
Qed.

Lemma handleKeyDown_space (u : Q) (s : State) :
  handleKeyDown u (js " ") s
  = if Status_eqb (status s) running then s else resetGame u s.
Proof.
  unfold handleKeyDown. destruct (Status_eqb (status s) running); reflexivity.
Qed.

(** X8: the space bar pressed while the status is not [running] restarts the
    game: start layout, direction right, nothing buffered, score 0, speed 160,
    status [running], the best score kept, and a food cell of the board that
    is off the snake. *)
Theorem space_restarts_the_game (u : Q) (s : State) :
  status s <> running ->
  isRandom u ->
  handleKeyDown u (js " ") s = resetGame u s
  /\ snake (handleKeyDown u (js " ") s) = initialSnake
  /\ direction (handleKeyDown u (js " ") s) = ArrowRight
  /\ pendingDirection (handleKeyDown u (js " ") s) = None
  /\ score (handleKeyDown u (js " ") s) = 0
  /\ speed (handleKeyDown u (js " ") s) = 160
  /\ status (handleKeyDown u (js " ") s) = running
  /\ bestScore (handleKeyDown u (js " ") s) = bestScore s
  /\ onBoard (food (handleKeyDown u (js " ") s))
  /\ ~ In (food (handleKeyDown u (js " ") s)) initialSnake.
Proof.
  intros Hs Hu. rewrite handleKeyDown_space.
  destruct (status s) eqn:E; cbn [Status_eqb]; try congruence;
    (do 8 (split; [reflexivity|]));
    apply spawnFood_avoids; try exact Hu; vm_compute; discriminate.
Qed.

(** X9: a key press changes nothing when the key is neither an arrow nor the
    space bar, when it is the space bar and the status is [running], and when
    it is an arrow and the status is [over]. *)
Theorem ignored_keys (u : Q) (key : JSString) (s : State) :
  (DIRECTIONS key = None /\ key <> js " ")
  \/ (key = js " " /\ status s = running)
  \/ (key <> js " " /\ status s = over) ->
  handleKeyDown u key s = s.
Proof.
  intros [[Hd Hk]|[[Hk Hs]|[Hk Hs]]].
  - unfold handleKeyDown. rewrite Hd.
    destruct (strictEq key (js " ")) eqn:E; [|reflexivity].
    apply strictEq_eq in E. congruence.
  - subst key. rewrite handleKeyDown_space, Hs. reflexivity.
  - unfold handleKeyDown.
    destruct (strictEq key (js " ")) eqn:E;
      [apply strictEq_eq in E; congruence|].
    cbn [andb]. destruct (DIRECTIONS key) as [next|]; [|reflexivity].
    pose proof (steer_outcome next s) as Ho. rewrite Hs in Ho. exact Ho.
Qed.

(** ** Buffered directions *)

Lemma effectiveDirection_setPending (d : Point) (s : State) :
  effectiveDirection (setPending (Some d) s) = d.
Proof. reflexivity. Qed.

Lemma steer_twice (d1 d2 : Point) (s : State) :
  status s = running ->
  isOpposite (effectiveDirection s) d1 = false ->
  isOpposite d1 d2 = false ->
  steer d1 s = setPending (Some d1) s
  /\ steer d2 (steer d1 s) = setPending (Some d2) s.
Proof.
  intros Hs Ho1 Ho2.
  assert (E1 : steer d1 s = setPending (Some d1) s).
  { rewrite (steer_running d1 s Hs), Ho1. reflexivity. }
  split; [exact E1|]. rewrite E1.
  rewrite (steer_running d2 (setPending (Some d1) s) Hs).
  rewrite effectiveDirection_setPending, Ho2. reflexivity.
Qed.

(** X10: of two accepted arrow keys pressed in a running game before the
    next tick, only the second is kept: the state is the one the second key
    alone would leave if it were accepted, with the first forgotten, and the
    second key is tested for reversal against the first, not against the
    direction the snake moves in. *)
Theorem last_accepted_key_wins
  (u1 u2 : Q) (k1 k2 : JSString) (d1 d2 : Point) (s : State) :
  status s = running ->
  DIRECTIONS k1 = Some d1 ->
  DIRECTIONS k2 = Some d2 ->
  isOpposite (effectiveDirection s) d1 = false ->
  isOpposite d1 d2 = false ->
  handleKeyDown u1 k1 s = setPending (Some d1) s
  /\ handleKeyDown u2 k2 (handleKeyDown u1 k1 s) = setPending (Some d2) s
  /\ effectiveDirection (handleKeyDown u2 k2 (handleKeyDown u1 k1 s)) = d2.
Proof.
  intros Hs H1 H2 Ho1 Ho2.
  rewrite (handleKeyDown_arrow u1 k1 d1 s H1).
  rewrite (handleKeyDown_arrow u2 k2 d2 _ H2).
  destruct (steer_twice d1 d2 s Hs Ho1 Ho2) as [E1 E2].
  rewrite E1 in *. rewrite E2. repeat split.
Qed.

(** X11: the reversal test can be passed in two key presses.  In a running
    game whose second segment lies behind the head, the key that points back
    at it is refused when pressed alone; pressed after a sideways key, before
    the next tick, it is buffered, and the tick runs the head into the second
    segment and ends the game. *)
Theorem reversal_in_two_keys
  (u u1 u2 : Q) (kside kback : JSString) (side back : Point)
  (s : State) (head neck : Point) (rest : list Point) :
  status s = running ->
  snake s = head :: neck :: rest ->
  DIRECTIONS kside = Some side ->
  DIRECTIONS kback = Some back ->
  neck = add head back ->
  isOpposite (effectiveDirection s) back = true ->
  isOpposite (effectiveDirection s) side = false ->
  isOpposite side back = false ->
  handleKeyDown u2 kback s = s
  /\ pendingDirection (handleKeyDown u2 kback (handleKeyDown u1 kside s))
     = Some back
  /\ exists s',
       step (Timer u) (handleKeyDown u2 kback (handleKeyDown u1 kside s))
       = Some s'
       /\ status s' = over /\ snake s' = snake s.
Proof.
  intros Hs Hsn Hside Hback Hneck Hob Hos Hsb.
  rewrite (handleKeyDown_arrow u1 kside side s Hside).
  rewrite !(handleKeyDown_arrow u2 kback back _ Hback).
  destruct (steer_twice side back s Hs Hos Hsb) as [_ E].
  rewrite E.
  split.
  - rewrite (steer_running back s Hs), Hob. reflexivity.
  - split; [reflexivity|].
    rewrite step_Timer_running by exact Hs.
    rewrite (tick_collision u (setPending (Some back) s) head (neck :: rest) Hsn).
    + eexists. split; [reflexivity|]. split; reflexivity.
    + right. unfold nextHeadOf. rewrite effectiveDirection_setPending.
      rewrite <- Hneck. cbn [snake setPending]. rewrite Hsn.
      right. left. reflexivity.
Qed.

(** ** The direction table *)

Lemma isOpposite_negated (a b : Point) :
  isOpposite a b = true <-> b = negated a.
Proof.
  unfold isOpposite, negated. rewrite andb_true_iff, !Z.eqb_eq. split.
  - intros [Hx Hy]. apply Point_ext; simpl; lia.
  - intros ->. simpl. lia.
Qed.

(** X12: for every direction of the table, [isOpposite] holds with exactly
    one vector, its negation, which is in the table too; it never holds
    between a direction and itself, and it does not depend on the order of
    its arguments. *)
Theorem opposite_directions (key : JSString) (d other : Point) :
  DIRECTIONS key = Some d ->
  isOpposite d d = false
  /\ isOpposite d other = isOpposite other d
  /\ (isOpposite d other = true <-> other = negated d)
  /\ exists key', DIRECTIONS key' = Some (negated d).
Proof.
  intros Hk.
  split; [|split; [|split; [apply isOpposite_negated|]]].
  - pose proof (DIRECTIONS_unit key d Hk) as Hu. unfold unitVector in Hu.
    unfold isOpposite. apply andb_false_iff.
    rewrite !Z.eqb_neq. lia.
  - unfold isOpposite. rewrite (Z.add_comm (x d)), (Z.add_comm (y d)). reflexivity.
  - revert Hk. unfold DIRECTIONS.
    destruct (strictEq key (js "ArrowUp"));
      [intros H; inversion H; exists (js "ArrowDown"); reflexivity|].
    destruct (strictEq key (js "ArrowDown"));
      [intros H; inversion H; exists (js "ArrowUp"); reflexivity|].
    destruct (strictEq key (js "ArrowLeft"));
      [intros H; inversion H; exists (js "ArrowRight"); reflexivity|].
    destruct (strictEq key (js "ArrowRight"));
      [intros H; inversion H; exists (js "ArrowLeft"); reflexivity|discriminate].
Qed.

(** ** The grid *)

Lemma update_length (A : Type) (j : nat) (a : A) (l : list A) :
  (j < List.length l)%nat -> List.length (update j a l) = List.length l.
Proof.
  intros Hj. unfold update.
  rewrite length_app, length_firstn. cbn [List.length].
  rewrite length_skipn. lia.
Qed.

Lemma update_nth_error (A : Type) (l : list A) : forall (j k : nat) (a : A),
  (j < List.length l)%nat ->
  nth_error (update j a l) k = if Nat.eqb k j then Some a else nth_error l k.
Proof.
  unfold update. induction l as [|b l IH]; intros j k a Hj; simpl in Hj; [lia|].
  destruct j as [|j].
  - destruct k; reflexivity.
  - destruct k as [|k]; [reflexivity|].
    cbn [firstn skipn app nth_error Nat.eqb].
    apply (IH j k a). lia.
Qed.

Lemma update_In (A : Type) (j : nat) (a b : A) (l : list A) :
  In b (update j a l) -> b = a \/ In b l.
Proof.
  unfold update. intros H. apply in_app_or in H. destruct H as [H|[H|H]].
  - right. rewrite <- (firstn_skipn j l). apply in_or_app. left. exact H.
  - left. symmetry. exact H.
  - right. rewrite <- (firstn_skipn (S j) l). apply in_or_app. right. exact H.
Qed.

Lemma fullGrid_row (cells : list Row) (j : nat) :
  fullGrid cells -> (j < 20)%nat ->
  nth_error cells j = Some (nth j cells [])
  /\ List.length (nth j cells []) = 20%nat
  /\ ~ In None (nth j cells []).
Proof.
  intros [Hlen Hrows] Hj.
  assert (Hin : In (nth j cells []) cells) by (apply nth_In; lia).
  split; [apply nth_error_nth'; lia|].
  exact (proj1 (Forall_forall _ cells) Hrows _ Hin).
Qed.

Lemma cellAt_full (cells : list Row) (c : Point) :
  fullGrid cells -> onBoard c -> exists v, cellAt cells c = Some v.
Proof.
  intros Hfull [Hx Hy]. unfold BOARD_SIZE in *.
  destruct (fullGrid_row cells (Z.to_nat (y c)) Hfull) as (Hrow & Hlen & Hno);
    [lia|].
  unfold cellAt. rewrite Hrow.
  destruct (nth_error (nth (Z.to_nat (y c)) cells []) (Z.to_nat (x c)))
    as [[v|]|] eqn:E.
  - exists v. reflexivity.
  - exfalso. apply Hno. eapply nth_error_In. exact E.
  - exfalso. apply nth_error_None in E. lia.
Qed.

(** Writing a cell of the board into a full grid. *)
Lemma cellSet_onBoard (cells : list Row) (p : Point) (v : CellKind) :
  fullGrid cells -> onBoard p ->
  exists cells',
    cellSet cells p v = Some cells'
    /\ fullGrid cells'
    /\ forall c, onBoard c ->
         cellAt cells' c
         = if (x p =? x c) && (y p =? y c) then Some v else cellAt cells c.
Proof.
  intros Hfull [Hx Hy]. unfold BOARD_SIZE in *.
  pose proof Hfull as [Hlen Hrows].
  destruct (fullGrid_row cells (Z.to_nat (y p)) Hfull) as (Hrow & Hrl & Hno);
    [lia|].
  unfold Row in *.
  remember (nth (Z.to_nat (y p)) cells []) as row eqn:Erow.
  assert (Hset : rowSet row (x p) v = update (Z.to_nat (x p)) (Some v) row).
  { unfold rowSet. rewrite Hrl.
    destruct (x p <? 0) eqn:E1; [apply Z.ltb_lt in E1; lia|].
    destruct (x p <? Z.of_nat 20) eqn:E2; [reflexivity|].
    apply Z.ltb_ge in E2. lia. }
  assert (Hcs : cellSet cells p v
                = Some (update (Z.to_nat (y p))
                               (update (Z.to_nat (x p)) (Some v) row) cells)).
  { unfold cellSet. unfold Row. rewrite Hlen.
    destruct (y p <? 0) eqn:E1; [apply Z.ltb_lt in E1; lia|].
    destruct (Z.of_nat 20 <=? y p) eqn:E2; [apply Z.leb_le in E2; lia|].
    cbn [orb]. rewrite <- Erow, Hset. reflexivity. }
  eexists. split; [exact Hcs|]. split.
  - split; [rewrite update_length; lia|].
    apply Forall_forall. intros r Hr. apply update_In in Hr.
    destruct Hr as [->|Hr].
    + split; [rewrite update_length; lia|].
      intros Hin. apply update_In in Hin.
      destruct Hin as [Hin|Hin]; [discriminate|exact (Hno Hin)].
    + exact (proj1 (Forall_forall _ cells) Hrows r Hr).
  - intros c [Hcx Hcy]. unfold cellAt. unfold Row.
    rewrite update_nth_error by lia.
    destruct (Nat.eqb (Z.to_nat (y c)) (Z.to_nat (y p))) eqn:Ey.
    + apply Nat.eqb_eq in Ey.
      assert (Hyy : y p = y c) by lia.
      rewrite update_nth_error by lia.
      destruct (Nat.eqb (Z.to_nat (x c)) (Z.to_nat (x p))) eqn:Ex.
      * apply Nat.eqb_eq in Ex.
        assert (Hxx : x p = x c) by lia.
        rewrite Hxx, Hyy, !Z.eqb_refl. reflexivity.
      * apply Nat.eqb_neq in Ex.
        assert (Hxx : (x p =? x c) = false) by (apply Z.eqb_neq; lia).
        rewrite Hxx. cbn [andb]. rewrite Ey, Hrow. reflexivity.
    + apply Nat.eqb_neq in Ey.
      assert (Hyy : (y p =? y c) = false) by (apply Z.eqb_neq; lia).
      rewrite Hyy, andb_false_r. reflexivity.
Qed.

Lemma emptyGrid_full : fullGrid emptyGrid.
Proof.
  split; [reflexivity|].
  apply Forall_forall. intros r Hr. apply repeat_spec in Hr. subst r.
  split; [reflexivity|].
  intros Hin. apply repeat_spec in Hin. discriminate.
Qed.

Lemma emptyGrid_cellAt (c : Point) :
  onBoard c -> cellAt emptyGrid c = Some cell_empty.
Proof.
  intros [Hx Hy]. unfold BOARD_SIZE in *. unfold cellAt, emptyGrid.
  rewrite nth_error_repeat by (unfold BOARD_SIZE; lia).
  rewrite nth_error_repeat by (unfold BOARD_SIZE; lia). reflexivity.
Qed.

(** Painting segments of the board into a full grid. *)
Lemma paint_segments (segments : list Point) : forall cells,
  fullGrid cells -> Forall onBoard segments ->
  exists cells',
    fold_left (fun acc segment =>
                 match acc with
                 | Some cells => cellSet cells segment cell_snake
                 | None => None
                 end) segments (Some cells) = Some cells'
    /\ fullGrid cells'
    /\ forall c, onBoard c ->
         cellAt cells' c
         = if occupies segments c then Some cell_snake else cellAt cells c.
Proof.
  induction segments as [|p segments IH]; intros cells Hfull Hon.
  - exists cells. repeat split; apply Hfull.
  - inversion Hon as [|? ? Hp Hrest]; subst.
    destruct (cellSet_onBoard cells p cell_snake Hfull Hp)
      as (cells1 & Hset & Hfull1 & Hat1).
    destruct (IH cells1 Hfull1 Hrest) as (cells' & Hfold & Hfull' & Hat').
    exists cells'. cbn [fold_left]. rewrite Hset.
    split; [exact Hfold|]. split; [exact Hfull'|].
    intros c Hc. rewrite (Hat' c Hc), (Hat1 c Hc).
    unfold occupies. cbn [existsb]. fold (occupies segments c).
    destruct (occupies segments c); [rewrite orb_true_r; reflexivity|].
    rewrite orb_false_r. reflexivity.
Qed.

(** X13: in every reachable state the grid is built without error and has
    twenty rows of twenty cells, none a hole; the cell of a board coordinate
    is food at the food, snake at a segment that is not under the food, and
    empty elsewhere. *)
Theorem grid_shows_the_state (s : State) (c : Point) :
  reachable s ->
  onBoard c ->
  exists cells,
    grid s = Some cells
    /\ List.length cells = 20%nat
    /\ Forall (fun row => List.length row = 20%nat /\ ~ In None row) cells
    /\ cellAt cells c = Some (shown s c).
Proof.
  intros Hreach Hc.
  destruct (reachable_inBounds s Hreach) as [Hsn Hfd].
  destruct (paint_segments (snake s) emptyGrid emptyGrid_full Hsn)
    as (cells1 & Hfold & Hfull1 & Hat1).
  destruct (cellSet_onBoard cells1 (food s) cell_food Hfull1 Hfd)
    as (cells & Hset & Hfull & Hat).
  exists cells. unfold grid. rewrite Hfold.
  split; [exact Hset|]. split; [apply Hfull|]. split; [apply Hfull|].
  rewrite (Hat c Hc), (Hat1 c Hc), (emptyGrid_cellAt c Hc). unfold shown.
  rewrite (Z.eqb_sym (x c)), (Z.eqb_sym (y c)).
  destruct ((x (food s) =? x c) && (y (food s) =? y c)); [reflexivity|].
  destruct (occupies (snake s) c); reflexivity.
Qed.

Lemma cellSet_length (cells cells' : list Row) (p : Point) (v : CellKind) :
  cellSet cells p v = Some cells' -> List.length cells' = List.length cells.
Proof.
  unfold cellSet.
  destruct ((y p <? 0) || (Z.of_nat (List.length cells) <=? y p)) eqn:E;
    [discriminate|].
  apply orb_false_iff in E. destruct E as [E1 E2].
  apply Z.ltb_ge in E1. apply Z.leb_gt in E2.
  intros H. inversion H. apply update_length. lia.
Qed.

Lemma paint_failed (segments : list Point) :
  fold_left (fun acc segment =>
               match acc with
               | Some cells => cellSet cells segment cell_snake
               | None => None
               end) segments None = None.
Proof. induction segments as [|q segments IH]; [reflexivity|exact IH]. Qed.

Lemma paint_off_rows (segments : list Point) (p : Point) : forall cells,
  List.length cells = 20%nat ->
  In p segments -> (y p < 0 \/ 20 <= y p) ->
  fold_left (fun acc segment =>
               match acc with
               | Some cells => cellSet cells segment cell_snake
               | None => None
               end) segments (Some cells) = None.
Proof.
  induction segments as [|q segments IH]; intros cells Hlen Hin Hoff;
    [destruct Hin|].
  cbn [fold_left].
  destruct (cellSet cells q cell_snake) as [cells1|] eqn:Hset;
    [|apply paint_failed].
  destruct Hin as [->|Hin].
  - exfalso. revert Hset. unfold cellSet. rewrite Hlen.
    destruct ((y p <? 0) || (Z.of_nat 20 <=? y p)) eqn:E; [discriminate|].
    apply orb_false_iff in E. destruct E as [E1 E2].
    apply Z.ltb_ge in E1. apply Z.leb_gt in E2. lia.
  - apply IH; [|exact Hin|exact Hoff].
    rewrite (cellSet_length cells cells1 q cell_snake Hset). exact Hlen.
Qed.

(** X14: the grid is not built when a segment of the snake has its [y]
    outside [0, 20): the write into the missing row is a TypeError. *)
Theorem grid_fails_off_rows (s : State) (p : Point) :
  In p (snake s) ->
  y p < 0 \/ 20 <= y p ->
  grid s = None.
Proof.
  intros Hin Hoff. unfold grid.
  rewrite (paint_off_rows (snake s) p emptyGrid eq_refl Hin Hoff). reflexivity.
Qed.

(** ** Free cells *)

Lemma boardCells_NoDup : NoDup boardCells.
Proof.
  assert (H : nodup Point_eq_dec boardCells = boardCells)
    by (vm_compute; reflexivity).
  rewrite <- H. apply NoDup_nodup.
Qed.

(** X15: in every reachable state the cells [spawnFood] can choose from are
    the 400 cells of the board less the segments of the snake. *)
Theorem free_cells_count (s : State) :
  reachable s ->
  (List.length (freeCells (snake s)) + List.length (snake s) = 400)%nat.
Proof.
  intros Hreach.
  destruct (reachable_inBounds s Hreach) as [Hon _].
  destruct (reachable_wellFormed s Hreach) as (Hnd & _).
  pose proof (filter_length (occupies (snake s)) boardCells) as Hsplit.
  rewrite boardCells_length in Hsplit.
  assert (Hocc : List.length (filter (occupies (snake s)) boardCells)
                 = List.length (snake s)).
  { apply Permutation_length. apply NoDup_Permutation.
    - apply NoDup_filter. exact boardCells_NoDup.
    - exact Hnd.
    - intros c. rewrite filter_In, occupies_In, boardCells_In. split.
      + intros [_ Hin]. exact Hin.
      + intros Hin. split; [|exact Hin].
        exact (proj1 (Forall_forall _ (snake s)) Hon c Hin). }
  unfold freeCells. lia.
Qed.

(** ** The best score from one session to the next *)

Lemma digitsOf_digits (fuel : nat) : forall n,
  forallb isDecimalDigit (digitsOf fuel n) = true.
Proof.
  induction fuel as [|fuel IH]; intros n; [reflexivity|].
  cbn [digitsOf]. destruct (n <? 10)%N eqn:E.
  - apply N.ltb_lt in E. cbn [forallb]. rewrite andb_true_r.
    unfold isDecimalDigit. apply andb_true_iff.
    split; apply N.leb_le; lia.
  - rewrite forallb_app, IH. cbn [forallb andb]. rewrite andb_true_r.
    assert (Hm : (n mod 10 < 10)%N) by (apply N.mod_lt; discriminate).
    revert Hm. generalize (n mod 10)%N. intros m Hm.
    unfold isDecimalDigit. apply andb_true_iff.
    split; apply N.leb_le; lia.
Qed.

Lemma digitsOf_nonempty (fuel : nat) (n : N) : digitsOf (S fuel) n <> [].
Proof.
  cbn [digitsOf]. destruct (n <? 10)%N; [discriminate|].
  intros H. apply app_eq_nil in H. destruct H as [_ H]. discriminate.
Qed.

Lemma digitsOf_value (fuel : nat) : forall n,
  (n < 10 ^ N.of_nat fuel)%N -> decimalValue (digitsOf fuel n) = n.
Proof.
  unfold decimalValue.
  induction fuel as [|fuel IH]; intros n Hn.
  - change (10 ^ N.of_nat 0)%N with 1%N in Hn. cbn [digitsOf fold_left]. lia.
  - cbn [digitsOf]. destruct (n <? 10)%N eqn:E.
    + apply N.ltb_lt in E. cbn [fold_left]. lia.
    + apply N.ltb_ge in E.
      rewrite fold_left_app. cbn [fold_left].
      rewrite IH.
      * pose proof (N.Div0.div_mod n 10) as Hd.
        revert Hd. generalize (n / 10)%N (n mod 10)%N. intros q m Hd. lia.
      * rewrite Nat2N.inj_succ, N.pow_succ_r' in Hn.
        apply N.Div0.div_lt_upper_bound. lia.
Qed.

Lemma unsignedDecimal_digits (digits : JSString) :
  digits <> [] ->
  forallb isDecimalDigit digits = true ->
  (decimalValue digits <= 2 ^ 53)%N ->
  unsignedDecimal digits = ofZ (Z.of_N (decimalValue digits)).
Proof.
  intros Hne Hd Hle. destruct digits as [|c rest]; [congruence|].
  assert (Hc : isDecimalDigit c = true).
  { simpl in Hd. apply andb_true_iff in Hd. apply Hd. }
  unfold isDecimalDigit in Hc. apply andb_true_iff in Hc.
  destruct Hc as [H1 H2]. apply N.leb_le in H1. apply N.leb_le in H2.
  unfold unsignedDecimal.
  assert (EI : strictEq (c :: rest) (js "Infinity") = false).
  { cbn. assert (E73 : (c =? 73)%N = false) by (apply N.eqb_neq; lia).
    rewrite E73. reflexivity. }
  rewrite EI, (spanDigits_decimal (c :: rest) 0%N 0%nat Hd).
  cbn [List.length Nat.add]. unfold scale10, ofZ.
  cbn [Z.leb Z.compare Z.pow Z.pow_pos Pos.iter].
  rewrite Z.mul_1_r. apply binary64_integer.
  split; [apply N2Z.is_nonneg|].
  change (2 ^ 53) with (Z.of_N (2 ^ 53)). apply N2Z.inj_le. exact Hle.
Qed.

Lemma trim_minus_digits (digits : JSString) :
  digits <> [] ->
  forallb isDecimalDigit digits = true ->
  trim (45%N :: digits) = 45%N :: digits.
Proof.
  intros Hne Hd. unfold trim.
  rewrite dropWhite_keep by reflexivity.
  assert (Hrev : dropWhite (rev (45%N :: digits)) = rev (45%N :: digits)).
  { cbn [rev]. destruct (rev digits) as [|c r] eqn:E.
    - exfalso. apply Hne. rewrite <- (rev_involutive digits), E. reflexivity.
    - cbn [app]. apply dropWhite_keep. apply digit_not_white.
      rewrite forallb_forall in Hd. apply Hd. apply in_rev.
      rewrite E. left. reflexivity. }
  rewrite Hrev. apply rev_involutive.
Qed.

Lemma StringToNumber_minus_digits (digits : JSString) :
  digits <> [] ->
  forallb isDecimalDigit digits = true ->
  (decimalValue digits <= 2 ^ 53)%N ->
  StringToNumber (45%N :: digits) = ofZ (- Z.of_N (decimalValue digits)).
Proof.
  intros Hne Hd Hle. unfold StringToNumber.
  rewrite (trim_minus_digits digits Hne Hd).
  rewrite nonDecimal_not_zero by reflexivity.
  cbn [N.eqb Pos.eqb]. rewrite (unsignedDecimal_digits digits Hne Hd Hle).
  reflexivity.
Qed.

Lemma ToString_integer (b : Z) :
  Z.abs b <= 2 ^ 53 ->
  ToString (ofZ b)
  = Some ((if b <? 0 then [45%N] else []) ++ digitsOf 16 (Z.abs_N b)).
Proof.
  intros Hb. unfold ToString, ofZ.
  rewrite Qfloor_Z, Qeq_bool_refl.
  apply Z.leb_le in Hb. rewrite Hb. reflexivity.
Qed.

Lemma StringToNumber_ToString_integer (b : Z) :
  Z.abs b <= 2 ^ 53 ->
  StringToNumber ((if b <? 0 then [45%N] else []) ++ digitsOf 16 (Z.abs_N b))
  = ofZ b.
Proof.
  intros Hb.
  assert (Hbound : (Z.abs_N b <= 2 ^ 53)%N).
  { apply N2Z.inj_le. rewrite N2Z.inj_abs_N. exact Hb. }
  assert (Hval : decimalValue (digitsOf 16 (Z.abs_N b)) = Z.abs_N b).
  { apply digitsOf_value.
    eapply N.le_lt_trans; [exact Hbound|]. reflexivity. }
  destruct (b <? 0) eqn:E; cbn [app].
  - apply Z.ltb_lt in E.
    rewrite StringToNumber_minus_digits;
      [|apply digitsOf_nonempty|apply digitsOf_digits|rewrite Hval; exact Hbound].
    rewrite Hval, N2Z.inj_abs_N. f_equal. lia.
  - apply Z.ltb_ge in E.
    rewrite StringToNumber_digits;
      [|apply digitsOf_nonempty|apply digitsOf_digits|rewrite Hval; exact Hbound].
    rewrite Hval, N2Z.inj_abs_N. f_equal. lia.
Qed.

Lemma startup_stored (u : Q) (c : N) (str : JSString) :
  bestScore (startup u (Some (c :: str))) = StringToNumber (c :: str).
Proof. reflexivity. Qed.

(** X16: a best score that is NaN, an infinity or an integer up to 2^53 in
    magnitude is written to the store as a string from which the next
    startup reads the same best score back; an integer comes back as itself
    and NaN comes back as NaN. *)
Theorem stored_best_score_is_read_back (u : Q) (s : State) :
  bestScore s = NaN \/ bestScore s = Infinity \/ bestScore s = NegInfinity
  \/ (exists b, bestScore s = ofZ b /\ Z.abs b <= 2 ^ 53) ->
  exists str,
    storeBestScore s = Some str
    /\ truthy (Some str) = true
    /\ bestScore (startup u (Some str)) = bestScore s.
Proof.
  unfold storeBestScore.
  intros [H|[H|[H|(b & H & Hb)]]]; rewrite H.
  - exists (js "NaN"). repeat split.
  - exists (js "Infinity"). repeat split.
  - exists (js "-Infinity"). repeat split.
  - rewrite (ToString_integer b Hb). eexists. split; [reflexivity|].
    destruct ((if b <? 0 then [45%N] else []) ++ digitsOf 16 (Z.abs_N b))
      as [|c str] eqn:E.
    + exfalso. destruct (b <? 0); [discriminate E|].
      exact (digitsOf_nonempty 15 (Z.abs_N b) E).
    + split; [reflexivity|].
      rewrite startup_stored, <- E. apply StringToNumber_ToString_integer.
      exact Hb.
Qed.

Lemma run_best_bound (es : list Event) : forall (s s' : State) (b : Z),
  reachable s ->
  bestScore s = ofZ b ->
  drawsOk es = true ->
  run es s = Some s' ->
  exists b', bestScore s' = ofZ b' /\ b <= b' <= Z.max b 397.
Proof.
  induction es as [|e es IH]; intros s s' b Hreach Hb Hok Hrun; simpl in *.
  - inversion Hrun; subst. exists b. split; [exact Hb|lia].
  - apply andb_true_iff in Hok. destruct Hok as [He Hes].
    destruct (step e s) as [s1|] eqn:Hstep; [|discriminate].
    assert (Hreach1 : reachable s1).
    { eapply reach_step; [exact Hreach|apply isRandomb_true; exact He|exact Hstep]. }
    destruct (step_bestScore e s s1 Hstep) as [H1|(_ & _ & _ & H1)].
    + rewrite Hb in H1. exact (IH s1 s' b Hreach1 H1 Hes Hrun).
    + rewrite Hb, Math_max_ofZ in H1.
      destruct (IH s1 s' _ Hreach1 H1 Hes Hrun) as (b' & Hb' & Hle).
      pose proof (reachable_length_le s Hreach) as Hlen.
      destruct (reachable_wellFormed s Hreach) as (_ & Hsc & _).
      exists b'. split; [exact Hb'|lia].
Qed.

(** X17: a session that starts from a best score read as an integer
    [previous] from 0 to 2^53 (0 when nothing is stored) keeps, through every
    run of events, an integer best score from [previous] up to the larger of
    [previous] and 397; the string the store effect writes for it is read
    back as the same integer by every later startup. *)
Theorem best_score_across_sessions
  (u u' : Q) (storedBest : option JSString) (previous : Z)
  (es : list Event) (s : State) :
  isRandom u ->
  bestScore (startup u storedBest) = ofZ previous ->
  0 <= previous <= 2 ^ 53 ->
  drawsOk es = true ->
  run es (startup u storedBest) = Some s ->
  exists b str,
    bestScore s = ofZ b
    /\ previous <= b <= Z.max previous 397
    /\ storeBestScore s = Some str
    /\ bestScore (startup u' (Some str)) = ofZ b.
Proof.
  intros Hu Hprev Hrange Hok Hrun.
  destruct (run_best_bound es (startup u storedBest) s previous
              (reach_startup u storedBest Hu) Hprev Hok Hrun)
    as (b & Hb & Hle).
  assert (Habs : Z.abs b <= 2 ^ 53) by lia.
  exists b. eexists.
  split; [exact Hb|]. split; [exact Hle|].
  unfold storeBestScore. rewrite Hb.
  split; [apply ToString_integer; exact Habs|].
  destruct ((if b <? 0 then [45%N] else []) ++ digitsOf 16 (Z.abs_N b))
    as [|c str] eqn:E.
  - exfalso. destruct (b <? 0); [discriminate E|].
    exact (digitsOf_nonempty 15 (Z.abs_N b) E).
  - rewrite startup_stored, <- E.
    apply StringToNumber_ToString_integer. exact Habs.
Qed.

(** ** No event fails *)

(** X18: in every reachable state every event is handled without error:
    the snake has a head for [tick] to read. *)
Theorem no_event_fails (e : Event) (s : State) :
  reachable s ->
  exists s', step e s = Some s'.
Proof.
  intros Hreach.
  destruct (reachable_wellFormed s Hreach) as (_ & Hlen & Hsc).
  destruct e as [u|u key|u]; simpl.
  - destruct (Status_eqb (status s) running); [|eexists; reflexivity].
    apply tick_total. intros Hnil. rewrite Hnil in Hlen.
    cbn [List.length Z.of_nat] in Hlen. lia.
  - eexists. reflexivity.
  - destruct (Status_eqb (status s) over); eexists; reflexivity.
Qed.

(** X19: when the snake lies on all 400 cells of the board, without a
    repeated segment, the next tick of a running game ends the game: the head
    has no cell to move to. *)
Theorem full_board_ends_the_game (u : Q) (s : State) :
  status s = running ->
  NoDup (snake s) ->
  Forall onBoard (snake s) ->
  List.length (snake s) = 400%nat ->
  exists s', step (Timer u) s = Some s'
             /\ status s' = over /\ snake s' = snake s.
Proof.
  intros Hs Hnd Hon Hlen.
  destruct (snake s) as [|head rest] eqn:Hsn; [discriminate Hlen|].
  rewrite <- Hsn in *.
  assert (Hcover : incl boardCells (snake s)).
  { apply NoDup_length_incl; [exact Hnd| |].
    - rewrite boardCells_length, Hlen. apply Nat.le_refl.
    - intros c Hin. apply boardCells_In.
      exact (proj1 (Forall_forall _ (snake s)) Hon c Hin). }
  rewrite step_Timer_running by exact Hs.
  rewrite (tick_collision u s head rest Hsn).
  - eexists. split; [reflexivity|]. split; reflexivity.
  - destruct (hitWall (nextHeadOf s head)) eqn:Hw.
    + left. apply hitWall_true. exact Hw.
    + right. apply Hcover. apply boardCells_In. apply hitWall_false. exact Hw.
Qed.

Lemma step_into_ready (e : Event) (s s' : State) :
  step e s = Some s' -> status s' = ready -> s' = s.
Proof.
  destruct e as [u|u key|u]; simpl; intros H Hr.
  - destruct (status s) eqn:Hs; cbn in H.
    + inversion H. reflexivity.
    + destruct (tick_outcome u s s' H) as [(Ho & _)|[Hst _]]; congruence.
    + inversion H. reflexivity.
  - inversion H; subst.
    destruct (handleKeyDown_status u key s) as [Hrun|Hsame];
      [congruence|exact Hsame].
  - destruct (status s) eqn:Hs; cbn in H; inversion H; subst;
      try reflexivity; discriminate Hr.
Qed.

(** X20: a reachable state whose status is [ready] is the state of a freshly
    mounted component: no event leads back to [ready], and no event changes a
    [ready] state without starting the game. *)
Theorem ready_is_the_mounted_state (s : State) :
  reachable s ->
  status s = ready ->
  exists u storedBest, isRandom u /\ s = startup u storedBest.
Proof.
  induction 1 as [u storedBest Hu|e s s' Hreach IH Hu Hstep]; intros Hr.
  - exists u, storedBest. split; [exact Hu|reflexivity].
  - pose proof (step_into_ready e s s' Hstep Hr) as Hsame. subst s'.
    exact (IH Hr).
Qed.

(** ** The further statements at sample states *)

Lemma startup_reachable : reachable (startup 0 None).
Proof. apply reach_startup. exact isRandom_0. Qed.

Lemma crashed_run : run crashTrace (startup 0 None) = Some crashed.
Proof. vm_compute. reflexivity. Qed.

Lemma crashed_reachable : reachable crashed.
Proof.
  exact (run_reachable crashTrace (startup 0 None) crashed
           startup_reachable eq_refl crashed_run).
Qed.

Lemma snake_and_food_on_board_crashed :
  reachable crashed
  /\ (Forall onBoard (snake crashed)
      /\ onBoard (food crashed)
      /\ (List.length (snake crashed) <= 400)%nat
      /\ 0 <= score crashed <= 397).
Proof.
  split; [exact crashed_reachable|].
  exact (snake_and_food_on_board crashed crashed_reachable).
Defined.

Lemma snake_is_a_chain_crashed :
  reachable crashed
  /\ (chain (snake crashed)
      /\ direction crashed = ArrowRight
      /\ unitVector (effectiveDirection crashed)).
Proof.
  split; [exact crashed_reachable|].
  exact (snake_is_a_chain crashed crashed_reachable).
Defined.

Lemma speed_follows_score_crashed :
  reachable crashed
  /\ (speed crashed = Z.max 60 (160 - 5 * score crashed)
      /\ 60 <= speed crashed <= 160
      /\ (20 <= score crashed -> speed crashed = 60)).
Proof.
  split; [exact crashed_reachable|].
  exact (speed_follows_score crashed crashed_reachable).
Defined.

Lemma status_transitions_restart :
  step (KeyDown 0 (js " ")) crashed = Some (resetGame 0 crashed)
  /\ resetGame 0 crashed = resetGame (eventDraw (KeyDown 0 (js " "))) crashed.
Proof.
  split; [reflexivity|].
  exact (status_transitions (KeyDown 0 (js " ")) crashed (resetGame 0 crashed)
           eq_refl).
Defined.

Lemma NaN_best_score_is_kept_crash :
  (run crashTrace (startup 0 (Some (js "abc"))) = Some (setBestScore NaN crashed)
   /\ bestScore (startup 0 (Some (js "abc"))) = NaN)
  /\ bestScore (setBestScore NaN crashed) = NaN.
Proof.
  assert (Hrun : run crashTrace (startup 0 (Some (js "abc")))
                 = Some (setBestScore NaN crashed))
    by (vm_compute; reflexivity).
  split; [split; [exact Hrun|reflexivity]|].
  exact (NaN_best_score_is_kept crashTrace (startup 0 (Some (js "abc")))
           (setBestScore NaN crashed) Hrun eq_refl).
Defined.

Lemma best_score_never_decreases_crash :
  (run crashTrace (startup 0 (Some (js "12")))
   = Some (setBestScore (ofZ 12) crashed)
   /\ bestScore (startup 0 (Some (js "12"))) = ofZ 12)
  /\ exists b', bestScore (setBestScore (ofZ 12) crashed) = ofZ b' /\ 12 <= b'.
Proof.
  assert (Hrun : run crashTrace (startup 0 (Some (js "12")))
                 = Some (setBestScore (ofZ 12) crashed))
    by (vm_compute; reflexivity).
  split; [split; [exact Hrun|reflexivity]|].
  exact (best_score_never_decreases crashTrace (startup 0 (Some (js "12")))
           (setBestScore (ofZ 12) crashed) 12 Hrun eq_refl).
Defined.

Lemma best_score_covers_final_score_crashed :
  (reachable crashed /\ status crashed = over /\ bestScore crashed = ofZ 0)
  /\ score crashed <= 0.
Proof.
  split; [split; [exact crashed_reachable|split; reflexivity]|].
  exact (best_score_covers_final_score crashed 0 crashed_reachable eq_refl eq_refl).
Defined.

Lemma space_restarts_the_game_crashed :
  (status crashed <> running /\ isRandom 0)
  /\ (handleKeyDown 0 (js " ") crashed = resetGame 0 crashed
      /\ snake (handleKeyDown 0 (js " ") crashed) = initialSnake
      /\ direction (handleKeyDown 0 (js " ") crashed) = ArrowRight
      /\ pendingDirection (handleKeyDown 0 (js " ") crashed) = None
      /\ score (handleKeyDown 0 (js " ") crashed) = 0
      /\ speed (handleKeyDown 0 (js " ") crashed) = 160
      /\ status (handleKeyDown 0 (js " ") crashed) = running
      /\ bestScore (handleKeyDown 0 (js " ") crashed) = bestScore crashed
      /\ onBoard (food (handleKeyDown 0 (js " ") crashed))
      /\ ~ In (food (handleKeyDown 0 (js " ") crashed)) initialSnake).
Proof.
  assert (Hs : status crashed <> running) by discriminate.
  split; [split; [exact Hs|exact isRandom_0]|].
  exact (space_restarts_the_game 0 crashed Hs isRandom_0).
Defined.

Lemma ignored_keys_letter :
  (DIRECTIONS (js "a") = None /\ js "a" <> js " ")
  /\ handleKeyDown 0 (js "a") cruising = cruising.
Proof.
  assert (H : DIRECTIONS (js "a") = None /\ js "a" <> js " ")
    by (split; [reflexivity|discriminate]).
  split; [exact H|].
  exact (ignored_keys 0 (js "a") cruising (or_introl H)).
Defined.

Lemma last_accepted_key_wins_up_left :
  (status cruising = running
   /\ DIRECTIONS (js "ArrowUp") = Some ArrowUp
   /\ DIRECTIONS (js "ArrowLeft") = Some ArrowLeft
   /\ isOpposite (effectiveDirection cruising) ArrowUp = false
   /\ isOpposite ArrowUp ArrowLeft = false)
  /\ (handleKeyDown 0 (js "ArrowUp") cruising = setPending (Some ArrowUp) cruising
      /\ handleKeyDown 0 (js "ArrowLeft") (handleKeyDown 0 (js "ArrowUp") cruising)
         = setPending (Some ArrowLeft) cruising
      /\ effectiveDirection
           (handleKeyDown 0 (js "ArrowLeft")
              (handleKeyDown 0 (js "ArrowUp") cruising))
         = ArrowLeft).
Proof.
  split; [repeat split|].
  exact (last_accepted_key_wins 0 0 (js "ArrowUp") (js "ArrowLeft")
           ArrowUp ArrowLeft cruising eq_refl eq_refl eq_refl eq_refl eq_refl).
Defined.

Lemma reversal_in_two_keys_cruising :
  (status cruising = running
   /\ snake cruising
      = {| x := 10; y := 10 |} :: {| x := 9; y := 10 |} :: [ {| x := 8; y := 10 |} ]
   /\ DIRECTIONS (js "ArrowUp") = Some ArrowUp
   /\ DIRECTIONS (js "ArrowLeft") = Some ArrowLeft
   /\ {| x := 9; y := 10 |} = add {| x := 10; y := 10 |} ArrowLeft
   /\ isOpposite (effectiveDirection cruising) ArrowLeft = true
   /\ isOpposite (effectiveDirection cruising) ArrowUp = false
   /\ isOpposite ArrowUp ArrowLeft = false)
  /\ (handleKeyDown 0 (js "ArrowLeft") cruising = cruising
      /\ pendingDirection
           (handleKeyDown 0 (js "ArrowLeft")
              (handleKeyDown 0 (js "ArrowUp") cruising))
         = Some ArrowLeft
      /\ exists s',
           step (Timer 0)
                (handleKeyDown 0 (js "ArrowLeft")
                   (handleKeyDown 0 (js "ArrowUp") cruising))
           = Some s'
           /\ status s' = over /\ snake s' = snake cruising).
Proof.
  split; [repeat split|].
  exact (reversal_in_two_keys 0 0 0 (js "ArrowUp") (js "ArrowLeft")
           ArrowUp ArrowLeft cruising {| x := 10; y := 10 |} {| x := 9; y := 10 |}
           [ {| x := 8; y := 10 |} ]
           eq_refl eq_refl eq_refl eq_refl eq_refl eq_refl eq_refl eq_refl).
Defined.

Lemma opposite_directions_up_down :
  DIRECTIONS (js "ArrowUp") = Some ArrowUp
  /\ (isOpposite ArrowUp ArrowUp = false
      /\ isOpposite ArrowUp ArrowDown = isOpposite ArrowDown ArrowUp
      /\ (isOpposite ArrowUp ArrowDown = true <-> ArrowDown = negated ArrowUp)
      /\ exists key', DIRECTIONS key' = Some (negated ArrowUp)).
Proof.
  split; [reflexivity|].
  exact (opposite_directions (js "ArrowUp") ArrowUp ArrowDown eq_refl).
Defined.

Lemma onBoard_19_10 : onBoard {| x := 19; y := 10 |}.
Proof. unfold onBoard, BOARD_SIZE. simpl. lia. Defined.

Lemma grid_shows_the_state_crashed :
  (reachable crashed /\ onBoard {| x := 19; y := 10 |})
  /\ exists cells,
       grid crashed = Some cells
       /\ List.length cells = 20%nat
       /\ Forall (fun row => List.length row = 20%nat /\ ~ In None row) cells
       /\ cellAt cells {| x := 19; y := 10 |}
          = Some (shown crashed {| x := 19; y := 10 |}).
Proof.
  split; [split; [exact crashed_reachable|exact onBoard_19_10]|].
  exact (grid_shows_the_state crashed {| x := 19; y := 10 |}
           crashed_reachable onBoard_19_10).
Defined.

Lemma grid_fails_off_rows_below :
  (In {| x := 5; y := 20 |} (snake belowTheBoard)
   /\ (y {| x := 5; y := 20 |} < 0 \/ 20 <= y {| x := 5; y := 20 |}))
  /\ grid belowTheBoard = None.
Proof.
  assert (Hin : In {| x := 5; y := 20 |} (snake belowTheBoard))
    by (left; reflexivity).
  assert (Hoff : y {| x := 5; y := 20 |} < 0 \/ 20 <= y {| x := 5; y := 20 |})
    by (right; simpl; lia).
  split; [split; [exact Hin|exact Hoff]|].
  exact (grid_fails_off_rows belowTheBoard {| x := 5; y := 20 |} Hin Hoff).
Defined.

Lemma free_cells_count_crashed :
  reachable crashed
  /\ (List.length (freeCells (snake crashed)) + List.length (snake crashed)
      = 400)%nat.
Proof.
  split; [exact crashed_reachable|].
  exact (free_cells_count crashed crashed_reachable).
Defined.

Lemma stored_best_score_is_read_back_crashed :
  (exists b, bestScore crashed = ofZ b /\ Z.abs b <= 2 ^ 53)
  /\ exists str,
       storeBestScore crashed = Some str
       /\ truthy (Some str) = true
       /\ bestScore (startup 0 (Some str)) = bestScore crashed.
Proof.
  assert (H : exists b, bestScore crashed = ofZ b /\ Z.abs b <= 2 ^ 53)
    by (exists 0; split; [reflexivity|discriminate]).
  split; [exact H|].
  exact (stored_best_score_is_read_back 0 crashed
           (or_intror (or_intror (or_intror H)))).
Defined.

Lemma best_score_across_sessions_crash :
  (isRandom 0
   /\ bestScore (startup 0 None) = ofZ 0
   /\ 0 <= 0 <= 2 ^ 53
   /\ drawsOk crashTrace = true
   /\ run crashTrace (startup 0 None) = Some crashed)
  /\ exists b str,
       bestScore crashed = ofZ b
       /\ 0 <= b <= Z.max 0 397
       /\ storeBestScore crashed = Some str
       /\ bestScore (startup 0 (Some str)) = ofZ b.
Proof.
  assert (Hr : 0 <= 0 <= 2 ^ 53) by (split; discriminate).
  split.
  - split; [exact isRandom_0|]. split; [reflexivity|]. split; [exact Hr|].
    split; [reflexivity|exact crashed_run].
  - exact (best_score_across_sessions 0 0 None 0 crashTrace crashed
             isRandom_0 eq_refl Hr eq_refl crashed_run).
Defined.

Lemma no_event_fails_startup :
  reachable (startup 0 None)
  /\ exists s', step (Timer 0) (startup 0 None) = Some s'.
Proof.
  split; [exact startup_reachable|].
  exact (no_event_fails (Timer 0) (startup 0 None) startup_reachable).
Defined.

Lemma boardCells_onBoard : Forall onBoard boardCells.
Proof. apply Forall_forall. intros c Hc. apply boardCells_In. exact Hc. Qed.

Lemma full_board_ends_the_game_boardFilled :
  (status boardFilled = running
   /\ NoDup (snake boardFilled)
   /\ Forall onBoard (snake boardFilled)
   /\ List.length (snake boardFilled) = 400%nat)
  /\ exists s', step (Timer 0) boardFilled = Some s'
                /\ status s' = over /\ snake s' = snake boardFilled.
Proof.
  split.
  - split; [reflexivity|]. split; [exact boardCells_NoDup|].
    split; [exact boardCells_onBoard|reflexivity].
  - exact (full_board_ends_the_game 0 boardFilled eq_refl boardCells_NoDup
             boardCells_onBoard eq_refl).
Defined.

Lemma ready_is_the_mounted_state_startup :
  (reachable (startup 0 None) /\ status (startup 0 None) = ready)
  /\ exists u storedBest, isRandom u /\ startup 0 None = startup u storedBest.
Proof.
  split; [split; [exact startup_reachable|reflexivity]|].
  exact (ready_is_the_mounted_state (startup 0 None) startup_reachable eq_refl).
Defined.
